(** * bloomvsmap: exact set versus Bloom filters over a stream of event records

    A shallow embedding of the Go program (package [main]): the record
    classifier ([ProcessChunkUsingMap], [ProcessChunkUsingBloom]), the
    reconciliation ([Confirm]), the readers, [Save], [setupTracing] and
    [main], together with a model of the Bloom filter the program imports. *)

From Stdlib Require Import NArith ZArith List Lia.
From Stdlib.Strings Require Import Byte Ascii String.
From stdpp Require Import gmap strings list fin_maps pretty.

Local Open Scope string_scope.

(* ===================================================================== *)
(** * Machine integers and byte encodings *)
(* ===================================================================== *)

(** Go's [int] on a 64-bit platform: two's complement, wrapping silently. *)
Definition int_max : Z := 2 ^ 63 - 1.

Definition int_wrap (z : Z) : Z := ((z + 2 ^ 63) `mod` 2 ^ 64 - 2 ^ 63)%Z.

Definition int_add (x y : Z) : Z := int_wrap (x + y).

(** Go's [uint] is 64 bits wide. *)
Definition uint_bound : N := 2 ^ 64.

(** The [n] least significant digits of [x] in base [base], least
    significant first. *)
Fixpoint le_digits (base : N) (n : nat) (x : N) : list N :=
  match n with
  | O => []
  | S n' => (x mod base)%N :: le_digits base n' (x / base)%N
  end.

Fixpoint of_le_digits (base : N) (ds : list N) : N :=
  match ds with
  | [] => 0%N
  | d :: ds' => (d + base * of_le_digits base ds')%N
  end.

Definition byte_of_N (n : N) : byte := default Byte.x00 (Byte.of_N n).

(** [binary.BigEndian]: a 64-bit word as eight bytes, most significant first. *)
Definition PutUint64 (x : N) : list byte :=
  map byte_of_N (rev (le_digits 256 8 x)).

Definition Uint64 (bs : list byte) : N :=
  of_le_digits 256 (rev (map Byte.to_N bs)).

Definition read_uint64 (bs : list byte) : option (N * list byte) :=
  match bs with
  | b0 :: b1 :: b2 :: b3 :: b4 :: b5 :: b6 :: b7 :: rest =>
      Some (Uint64 [b0; b1; b2; b3; b4; b5; b6; b7], rest)
  | _ => None
  end.

Fixpoint read_words (n : nat) (bs : list byte) : option (list N * list byte) :=
  match n with
  | O => Some ([], bs)
  | S n' =>
      '(w, rest) ← read_uint64 bs;
      '(ws, rest') ← read_words n' rest;
      Some (w :: ws, rest')
  end.

(* ===================================================================== *)
(** * The probabilistic membership estimator *)
(* ===================================================================== *)

(** The family of hash functions of the estimator: [hash i s] is the 64-bit
    value of the [i]-th hash function on the identifier [s]. The development
    is generic in it. *)
Class HashFamily := hash : N → string → N.

Module bloom.

(** Modelled from the spec: the Bloom filter comes from the imported package
    [github.com/bits-and-blooms/bloom/v3], whose code is not among the
    sources. The estimator is "a fixed-size bit array plus several hash
    functions": [m] is the size of the bit array, [k] the number of hash
    functions, both fixed at construction, and [b] the bit array, held as
    the number whose binary digits are the bits. *)
Record BloomFilter := mkBloomFilter { m : N; k : N; b : N }.

Section Estimator.
Context `{HashFamily}.

(** Modelled from the spec: construction fixes the size of the bit array
    and the number of hash functions, "derived once at construction and
    immutable afterward"; the array starts empty. *)
Definition New (m k : N) : BloomFilter :=
  {| m := m; k := k; b := 0 |}.

(** Modelled from the spec: the [i]-th "hash-derived bit position" of an
    identifier. *)
Definition location (f : BloomFilter) (i : N) (s : string) : N :=
  (hash i s mod m f)%N.

Definition locations (f : BloomFilter) (s : string) : list N :=
  map (λ i, location f (N.of_nat i) s) (seq 0 (N.to_nat (k f))).

(** Modelled from the spec: [Insert] "adds the identifier's hash-derived
    bit positions to the internal bit array". *)
Definition AddString (f : BloomFilter) (s : string) : BloomFilter :=
  {| m := m f; k := k f; b := fold_left N.setbit (locations f s) (b f) |}.

(** Modelled from the spec: [Test] "returns true if all hash-derived bit
    positions for the identifier are set". *)
Definition TestString (f : BloomFilter) (s : string) : bool :=
  forallb (N.testbit (b f)) (locations f s).

(** Number of 64-bit words that hold a bit array of [m] bits. *)
Definition wordsNeeded (m : N) : nat := N.to_nat ((m + 63) / 64).

(** Modelled from the spec: [Serialize] "produces a byte encoding
    capturing the bit array and its configuration (capacity, hash count)
    sufficient for exact reconstruction": the two parameters, then the bit
    array word by word, every number as eight big-endian bytes. *)
Definition GobEncode (f : BloomFilter) : list byte :=
  PutUint64 (m f) ++ PutUint64 (k f)
    ++ flat_map PutUint64 (le_digits uint_bound (wordsNeeded (m f)) (b f)).

(** Modelled from the spec: [Deserialize], the inverse of [Serialize];
    fails on input that is too short or too long. *)
Definition GobDecode (bs : list byte) : option BloomFilter :=
  '(m, r1) ← read_uint64 bs;
  '(k, r2) ← read_uint64 r1;
  '(ws, r3) ← read_words (wordsNeeded m) r2;
  match r3 with
  | [] => Some {| m := m; k := k; b := of_le_digits uint_bound ws |}
  | _ :: _ => None
  end.

(** The states of a filter built by [New] and grown by [AddString]:
    parameters that fit a [uint], and no bit outside the array. *)
Definition wf (f : BloomFilter) : Prop :=
  (1 ≤ m f < uint_bound)%N ∧ (k f < uint_bound)%N ∧ (b f < 2 ^ m f)%N.

End Estimator.

End bloom.

(* ===================================================================== *)
(** * The core: records, the three stores, classifier and reconciliation *)
(* ===================================================================== *)

(** [type Model struct]: a decoded event. The nested [Actor], [Repo] and
    [Payload] structs are decoded but read by no function, and are left out. *)
Record Model := mkModel {
  Id : string;
  Type_ : string;
  Public : bool;
  CreatedAt : string;
}.

(** [type Config struct]. *)
Record Config := mkConfig {
  TracingEnabled : bool;
  TraceFile : string;
}.

(** The package-level variables [pushEventMap], [blomfil], [halfblomfil]. *)
Record Globals := mkGlobals {
  pushEventMap : gmap string bool;
  blomfil : bloom.BloomFilter;
  halfblomfil : bloom.BloomFilter;
}.

(** The four counters of [Confirm], in the order they are printed. *)
Record Tally := mkTally {
  hitCount : Z;
  missCount : Z;
  halfCoount : Z;
  mhalfCount : Z;
}.

Definition LARGE_JSON_FILE : string :=
  "https://raw.githubusercontent.com/json-iterator/test-data/master/large-file.json".
Definition TRACE_FILE : string := "bloomtrace.trace.out".

Section Core.
Context `{HashFamily}.

(** [bloom.NewWithEstimates(n, p)] derives the two parameters in floating
    point: [m = ceil(-n ln p / (ln 2)^2)] and [k = ceil(ln 2 * m / n)].
    For [(12000, 0.1)] that is [(57511, 4)], for [(6000, 0.1)] it is
    [(28756, 4)]; the values are used here. *)
Definition initial_globals : Globals :=
  {| pushEventMap := ∅;
     blomfil := bloom.New 57511 4;
     halfblomfil := bloom.New 28756 4 |}.

Definition ProcessChunkUsingMap (md : Model) (g : Globals) : Globals :=
  if decide (Type_ md = "PushEvent") then
    {| pushEventMap := <[Id md := true]> (pushEventMap g);
       blomfil := blomfil g;
       halfblomfil := halfblomfil g |}
  else g.

Definition ProcessChunkUsingBloom (md : Model) (g : Globals) : Globals :=
  if decide (Type_ md = "PushEvent") then
    {| pushEventMap := pushEventMap g;
       blomfil := bloom.AddString (blomfil g) (Id md);
       halfblomfil := bloom.AddString (halfblomfil g) (Id md) |}
  else g.

(** One pass: the callback applied to every record, in order. *)
Definition pass (proc : Model → Globals → Globals)
    (records : list Model) (g : Globals) : Globals :=
  fold_left (λ g md, proc md g) records g.

(** The body of the loop of [Confirm] for one key. *)
Definition Confirm_step (g : Globals) (t : Tally) (k : string) : Tally :=
  let t1 :=
    if bloom.TestString (blomfil g) k
    then {| hitCount := int_add (hitCount t) 1; missCount := missCount t;
            halfCoount := halfCoount t; mhalfCount := mhalfCount t |}
    else {| hitCount := hitCount t; missCount := int_add (missCount t) 1;
            halfCoount := halfCoount t; mhalfCount := mhalfCount t |} in
  if bloom.TestString (halfblomfil g) k
  then {| hitCount := hitCount t1; missCount := missCount t1;
          halfCoount := int_add (halfCoount t1) 1; mhalfCount := mhalfCount t1 |}
  else {| hitCount := hitCount t1; missCount := missCount t1;
          halfCoount := halfCoount t1; mhalfCount := int_add (mhalfCount t1) 1 |}.

(** [for k, _ := range pushEventMap]: Go visits every key once, in an
    order it does not specify; [ks] is the order of one execution. *)
Definition range_order (mp : gmap string bool) (ks : list string) : Prop :=
  ks ≡ₚ (map_to_list mp).*1.

Definition Confirm_tally (ks : list string) (g : Globals) : Tally :=
  fold_left (Confirm_step g) ks
    {| hitCount := 0; missCount := 0; halfCoount := 0; mhalfCount := 0 |}.

(** The line [Confirm] logs. *)
Definition Confirm_line (t : Tally) : string :=
  "Hits in bloom: " +:+ pretty (hitCount t)
    +:+ ", Miss in bloom: " +:+ pretty (missCount t)
    +:+ ", Half in: " +:+ pretty (halfCoount t)
    +:+ ", Half miss: " +:+ pretty (mhalfCount t).

End Core.

(* ===================================================================== *)
(** * The process: its environment and its effects *)
(* ===================================================================== *)

(** A Go result [(value, err)]; an error is kept as its message. *)
Inductive result (A : Type) : Type :=
  | Ok (a : A)
  | Err (e : string).
Arguments Ok {A} a.
Arguments Err {A} e.

(** What decoding one element of the JSON array gives: a record, or the
    error of [Decode] on a value that does not fit [Model]. *)
Inductive decoded : Type :=
  | Value (md : Model)
  | Malformed (e : string).

(** The body of a response, as the decoders of [encoding/json] see it. *)
Record Body := mkBody {
  read_err : option string;    (* the error of [io.ReadAll], if any *)
  token_err : option string;   (* the error of reading the opening token *)
  elements : list decoded;     (* the elements of the array, in order *)
}.

(** Everything the process asks of the outside world. *)
Record Env := mkEnv {
  Args : list string;                        (* [os.Args[1:]] *)
  http_Get : nat → result Body;              (* the answer to the n-th request *)
  create_err : string → option string;       (* the error of [os.Create] on a name *)
  write_err : string → option string;        (* the error of writing the named file *)
  close_err : string → option string;        (* the error of closing it *)
  trace_Start_err : option string;           (* the error of [trace.Start] *)
  gob_Encode : gmap string bool → result (list byte);
  gzip_bytes : list byte → list byte;
}.

(** The state of the process. Lines of package [log] are kept without their
    time stamp; what goes to standard output ([memUsage]) is not kept. *)
Record World := mkWorld {
  globals : Globals;
  flags : gmap string bool;          (* [flag.CommandLine]: flag name to value *)
  tracing : bool;                    (* [trace.IsEnabled()] *)
  requests : nat;                    (* HTTP requests made so far *)
  files : gmap string (list byte);   (* files created, with their contents *)
  logged : list string;              (* lines logged, oldest first *)
}.

(** A call either returns, or ends the process ([os.Exit], reached through
    [log.Fatal] and [log.Fatalf]); deferred calls do not run on exit. *)
Inductive outcome (A : Type) : Type :=
  | Returned (a : A) (w : World)
  | Exited (code : Z) (w : World).
Arguments Returned {A} a w.
Arguments Exited {A} code w.

Definition M (A : Type) : Type := World → outcome A.

#[global] Instance M_ret : MRet M := λ A a w, Returned a w.

#[global] Instance M_bind : MBind M := λ A B f c w,
  match c w with
  | Returned a w' => f a w'
  | Exited code w' => Exited code w'
  end.

(** Sequencing, with the computation written first. *)
Definition bindM {A B : Type} (c : M A) (f : A → M B) : M B := mbind f c.

Notation "'let*' x ':=' c 'in' k" := (bindM c (λ x, k))
  (at level 10, x name, c at level 100, k at level 200).

Definition set_globals (g : Globals) (w : World) : World :=
  {| globals := g; flags := flags w; tracing := tracing w;
     requests := requests w; files := files w; logged := logged w |}.

Definition set_flags (fs : gmap string bool) (w : World) : World :=
  {| globals := globals w; flags := fs; tracing := tracing w;
     requests := requests w; files := files w; logged := logged w |}.

Definition set_tracing (t : bool) (w : World) : World :=
  {| globals := globals w; flags := flags w; tracing := t;
     requests := requests w; files := files w; logged := logged w |}.

Definition set_requests (n : nat) (w : World) : World :=
  {| globals := globals w; flags := flags w; tracing := tracing w;
     requests := n; files := files w; logged := logged w |}.

Definition set_files (fs : gmap string (list byte)) (w : World) : World :=
  {| globals := globals w; flags := flags w; tracing := tracing w;
     requests := requests w; files := fs; logged := logged w |}.

Definition add_log (line : string) (w : World) : World :=
  {| globals := globals w; flags := flags w; tracing := tracing w;
     requests := requests w; files := files w; logged := logged w ++ [line] |}.

Definition get_globals : M Globals := λ w, Returned (globals w) w.

Definition modify_globals (f : Globals → Globals) : M unit :=
  λ w, Returned () (set_globals (f (globals w)) w).

Definition log_Println (line : string) : M unit :=
  λ w, Returned () (add_log line w).

(** [log.Fatal], [log.Fatalf]: log the line, then [os.Exit(1)]. *)
Definition log_Fatal {A : Type} (line : string) : M A :=
  λ w, Exited 1 (add_log line w).

Definition trace_IsEnabled : M bool := λ w, Returned (tracing w) w.

(** [trace.WithRegion(ctx, name, fn)] runs [fn]. *)
Definition trace_WithRegion {A : Type} (name : string) (fn : M A) : M A := fn.

(** ** Package [flag], for boolean flags *)

(** [flag.Bool(name, value, usage)] defines the flag with its default and
    returns a pointer to its value; the pointer is modelled by the name. *)
Definition flag_Bool (name : string) (value : bool) : M string :=
  λ w, Returned name (set_flags (<[name := value]> (flags w)) w).

(** Reading through the pointer [flag.Bool] returned. *)
Definition flag_deref (p : string) : M bool :=
  λ w, Returned (default false (flags w !! p)) w.

(** [strconv.ParseBool]. *)
Definition ParseBool (s : string) : option bool :=
  if decide (s ∈ ["1"; "t"; "T"; "TRUE"; "true"; "True"]) then Some true
  else if decide (s ∈ ["0"; "f"; "F"; "FALSE"; "false"; "False"]) then Some false
  else None.

(** The text before the first [=], and the text after it when there is one. *)
Fixpoint cut_at_equals (s : string) : string * option string :=
  match s with
  | EmptyString => (EmptyString, None)
  | String c s' =>
      if Ascii.eqb c "="%char then (EmptyString, Some s')
      else let '(n, v) := cut_at_equals s' in (String c n, v)
  end.

(** One step of [FlagSet.parseOne] on a set of boolean flags: [Ok None]
    when the flags end here, [Ok (Some fs)] after a flag is set. (The help
    flags [-h] and [-help] are treated as any undefined flag.) *)
Definition parseOne (fs : gmap string bool) (arg : string)
    : result (option (gmap string bool)) :=
  match arg with
  | String "-" (String c rest) =>
      let name := if Ascii.eqb c "-"%char then rest else String c rest in
      if Ascii.eqb c "-"%char && bool_decide (rest = EmptyString) then Ok None
      else
        match name with
        | EmptyString | String "-" _ | String "=" _ =>
            Err ("bad flag syntax: " +:+ arg)
        | String c0 name' =>
            let '(n', v) := cut_at_equals name' in
            let n := String c0 n' in
            match fs !! n with
            | None => Err ("flag provided but not defined: -" +:+ n)
            | Some _ =>
                match v with
                | None => Ok (Some (<[n := true]> fs))
                | Some txt =>
                    match ParseBool txt with
                    | Some bv => Ok (Some (<[n := bv]> fs))
                    | None => Err ("invalid boolean value for -" +:+ n)
                    end
                end
            end
        end
  | _ => Ok None
  end.

Fixpoint parse_args (fs : gmap string bool) (args : list string)
    : result (gmap string bool) :=
  match args with
  | [] => Ok fs
  | arg :: args' =>
      match parseOne fs arg with
      | Err e => Err e
      | Ok None => Ok fs
      | Ok (Some fs') => parse_args fs' args'
      end
  end.

Section Process.
Context `{HashFamily} (env : Env).

(** [flag.Parse()]: parses [os.Args[1:]] into the defined flags; on an
    error it prints it and exits with status 2. *)
Definition flag_Parse : M unit := λ w,
  match parse_args (flags w) (Args env) with
  | Ok fs => Returned () (set_flags fs w)
  | Err e => Exited 2 w
  end.

(** [client.Get(LARGE_JSON_FILE)]: the next answer of the server. *)
Definition client_Get (url : string) : M (result Body) := λ w,
  Returned (http_Get env (requests w)) (set_requests (S (requests w)) w).

(** [os.Create]: on success the named file exists and is empty. *)
Definition os_Create (name : string) : M (option string) := λ w,
  match create_err env name with
  | Some e => Returned (Some e) w
  | None => Returned None (set_files (<[name := []]> (files w)) w)
  end.

(** Writing [data] through a [gzip.Writer] on the named file. *)
Definition gzip_Write (name : string) (data : list byte) : M (option string) := λ w,
  match write_err env name with
  | Some e => Returned (Some e) w
  | None => Returned None (set_files (<[name := gzip_bytes env data]> (files w)) w)
  end.

Definition trace_Start : M (option string) := λ w,
  match trace_Start_err env with
  | Some e => Returned (Some e) w
  | None => Returned None (set_tracing true w)
  end.

Definition trace_Stop : M unit := λ w, Returned () (set_tracing false w).

(** [json.Unmarshal] of a whole buffer into [[]Model]: it fails when the
    buffer is not an array or any element fails to decode. *)
Fixpoint collect (ds : list decoded) : result (list Model) :=
  match ds with
  | [] => Ok []
  | Malformed e :: _ => Err e
  | Value md :: ds' =>
      match collect ds' with
      | Ok l => Ok (md :: l)
      | Err e => Err e
      end
  end.

Definition json_Unmarshal (body : Body) : result (list Model) :=
  match token_err body with
  | Some e => Err e
  | None => collect (elements body)
  end.

Definition setupTracing (cfg : Config) : M (M unit) :=
  if negb (TracingEnabled cfg) then mret (mret ())
  else
    let* err := os_Create (TraceFile cfg) in
    match err with
    | Some e => log_Fatal ("failed to create trace output file: " +:+ e)
    | None =>
        let* err := trace_Start in
        match err with
        | Some e => log_Fatal ("failed to start trace: " +:+ e)
        | None =>
            mret (trace_Stop;;
                  match close_err env (TraceFile cfg) with
                  | Some e => log_Fatal ("failed to close trace file: " +:+ e)
                  | None => mret ()
                  end)
        end
    end.

(** [for _, m := range dataModel { proc(&m) }]. *)
Fixpoint range_proc (proc : Model → Globals → Globals) (dataModel : list Model)
    : M unit :=
  match dataModel with
  | [] => mret ()
  | md :: rest => modify_globals (proc md);; range_proc proc rest
  end.

Definition readAllInMemoryInternal (cfg : Config)
    (proc : Model → Globals → Globals) : M unit :=
  let* req := client_Get LARGE_JSON_FILE in
  match req with
  | Err e => log_Fatal ("ERROR FETCHING TEST DATA: " +:+ e)
  | Ok body =>
      match read_err body with
      | Some e => log_Fatal ("Error reading all data into memory: " +:+ e)
      | None =>
          match json_Unmarshal body with
          | Err e => log_Fatal ("Error Unmarshalling data into memory: " +:+ e)
          | Ok dataModel =>
              range_proc proc dataModel;;
              log_Println ("entries: %d " +:+ pretty (length dataModel))
          end
      end
  end.

(** The same function, reading the body through a [bufio.Reader]. *)
Definition readAllInMemoryInternalBuffered (cfg : Config)
    (proc : Model → Globals → Globals) : M unit :=
  readAllInMemoryInternal cfg proc.

Definition ReadAllInMemory (cfg : Config) (proc : Model → Globals → Globals)
    : M unit :=
  let* en := trace_IsEnabled in
  if en then trace_WithRegion "readAllInMemory" (readAllInMemoryInternal cfg proc)
  else readAllInMemoryInternal cfg proc.

Definition ReadAllInMemoryBuffered (cfg : Config)
    (proc : Model → Globals → Globals) : M unit :=
  let* en := trace_IsEnabled in
  if en then
    trace_WithRegion "readAllInMemory" (readAllInMemoryInternalBuffered cfg proc)
  else readAllInMemoryInternalBuffered cfg proc.

(** [for dec.More() { m := Model{}; if err := dec.Decode(&m); ... }] of
    [readAllStreamingInternal], on the elements still to come. *)
Fixpoint decode_loop (proc : Model → Globals → Globals)
    (rest : list decoded) (dataModel : list Model) : M (list Model) :=
  match rest with
  | [] => mret dataModel
  | Malformed e :: rest' =>
      log_Println ("decoding err =>  " +:+ e);;
      decode_loop proc rest' dataModel
  | Value md :: rest' =>
      modify_globals (proc md);;
      decode_loop proc rest' (dataModel ++ [md])
  end.

Definition readAllStreamingInternal (cfg : Config)
    (proc : Model → Globals → Globals) : M unit :=
  let* req := client_Get LARGE_JSON_FILE in
  match req with
  | Err e => log_Fatal ("ERROR FETCHING TEST DATA: " +:+ e)
  | Ok body =>
      match token_err body with
      | Some e => log_Fatal ("Token decoding error: <nil> " +:+ e)
      | None =>
          let* dataModel := decode_loop proc (elements body) [] in
          log_Println ("entries: %d " +:+ pretty (length dataModel))
      end
  end.

(** The same function, reading the body through a [bufio.Reader] (and
    calling [proc] before the append, which no one can tell apart). *)
Definition readAllStreamingBufferedInternal (cfg : Config)
    (proc : Model → Globals → Globals) : M unit :=
  readAllStreamingInternal cfg proc.

Definition ReadAllStreaming (cfg : Config) (proc : Model → Globals → Globals)
    : M unit :=
  let* en := trace_IsEnabled in
  if en then trace_WithRegion "readAllStreaming" (readAllStreamingInternal cfg proc)
  else readAllStreamingInternal cfg proc.

Definition ReadAllStreamingBuffered (cfg : Config)
    (proc : Model → Globals → Globals) : M unit :=
  let* en := trace_IsEnabled in
  if en then
    trace_WithRegion "readAllStreaming" (readAllStreamingBufferedInternal cfg proc)
  else readAllStreamingBufferedInternal cfg proc.

(** [Save]: the value returned is [err], the error of [os.Create]; the
    result of [fz.Write] is dropped, and so are those of the deferred
    [Close] calls. *)
Definition Save (filename : string) (data : list byte) : M (option string) :=
  let* err := os_Create filename in
  match err with
  | Some e => mret (Some e)
  | None =>
      gzip_Write filename data;;
      mret err
  end.

(** [Confirm], visiting the keys in the order [map_to_list] gives. *)
Definition Confirm : M unit :=
  let* g := get_globals in
  log_Println (Confirm_line (Confirm_tally (map_to_list (pushEventMap g)).*1 g)).

(** [main]. The flag is defined and read; [flag.Parse] is not called.
    The results of the three [Save] calls are dropped. [closer] is the
    deferred call, run when [main] returns. *)
Definition main : M unit :=
  let* enableTracing := flag_Bool "e" true in
  let* v := flag_deref enableTracing in
  let cfg := {| TracingEnabled := v; TraceFile := TRACE_FILE |} in
  let* closer := setupTracing cfg in
  ReadAllStreaming cfg ProcessChunkUsingMap;;
  ReadAllStreaming cfg ProcessChunkUsingBloom;;
  let* g := get_globals in
  let blomBytes := bloom.GobEncode (blomfil g) in
  let halfblomBytes := bloom.GobEncode (halfblomfil g) in
  match gob_Encode env (pushEventMap g) with
  | Err e => log_Fatal ("Error on json Marshal: " +:+ e)
  | Ok buf =>
      Save "mapBytes.gob" buf;;
      Save "bloomBytes.gob" blomBytes;;
      Save "halfbloomBytes.gob" halfblomBytes;;
      Confirm;;
      closer
  end.

(** The process as started: empty stores, no flag defined, nothing logged. *)
Definition initial_world : World :=
  {| globals := initial_globals; flags := ∅; tracing := false;
     requests := 0; files := ∅; logged := [] |}.

End Process.

(** The same environment, started with another command line. *)
Definition with_Args (args : list string) (env : Env) : Env :=
  {| Args := args; http_Get := http_Get env; create_err := create_err env;
     write_err := write_err env; close_err := close_err env;
     trace_Start_err := trace_Start_err env; gob_Encode := gob_Encode env;
     gzip_bytes := gzip_bytes env |}.

(** The records among the elements of a body, and the errors among them. *)
Definition records_of (ds : list decoded) : list Model :=
  omap (λ d, match d with Value md => Some md | Malformed _ => None end) ds.

Definition errors_of (ds : list decoded) : list string :=
  omap (λ d, match d with Value _ => None | Malformed e => Some e end) ds.

(** The identifiers a pass tracks: those of the records of the push category. *)
Definition tracked (records : list Model) : list string :=
  Id <$> filter (λ md, Type_ md = "PushEvent") records.

(* ===================================================================== *)
(** * Concrete instances, to run the definitions *)
(* ===================================================================== *)

(** A small hash family: a polynomial code of the bytes of the identifier,
    stretched differently by every function of the family. *)
Fixpoint string_code (s : string) (acc : N) : N :=
  match s with
  | EmptyString => acc
  | String c s' => string_code s' ((acc * 131 + Ascii.N_of_ascii c) mod uint_bound)%N
  end.

Definition example_hash : HashFamily :=
  λ i s, ((string_code s 7 * (2 * i + 1) + i) mod uint_bound)%N.

Definition example_records : list Model :=
  [ mkModel "1" "PushEvent" true "2015-01-01T15:00:00Z";
    mkModel "2" "WatchEvent" true "2015-01-01T15:00:01Z";
    mkModel "3" "PushEvent" true "2015-01-01T15:00:03Z" ].

(** A server that always answers with the given elements, and a file system
    on which creating a file named in [unwritable] fails. *)
Definition example_env (args : list string) (els : list decoded)
    (unwritable : list string) : Env :=
  {| Args := args;
     http_Get := λ _, Ok {| read_err := None; token_err := None; elements := els |};
     create_err := λ name,
       if decide (name ∈ unwritable) then Some "permission denied" else None;
     write_err := λ _, None;
     close_err := λ _, None;
     trace_Start_err := None;
     gob_Encode := λ _, Ok [];
     gzip_bytes := λ data, data |}.

(** The stores after the two passes over [example_records], from an empty
    set and two small estimators. *)
Definition example_final : Globals :=
  let H := example_hash in
  pass ProcessChunkUsingBloom example_records
    (pass ProcessChunkUsingMap example_records
       {| pushEventMap := ∅;
          blomfil := bloom.New 100 4;
          halfblomfil := bloom.New 50 4 |}).

(** An exact set of two keys next to two estimators nothing was inserted in. *)
Definition example_unhealthy : Globals :=
  {| pushEventMap := {[ "1" := true; "3" := true ]};
     blomfil := bloom.New 100 4;
     halfblomfil := bloom.New 50 4 |}.

(** A body whose second element does not decode. *)
Definition example_body : Body :=
  {| read_err := None; token_err := None;
     elements :=
       [ Value (mkModel "1" "PushEvent" true "2015-01-01T15:00:00Z");
         Malformed "json: cannot unmarshal number into Go struct field Model.id of type string";
         Value (mkModel "3" "PushEvent" true "2015-01-01T15:00:03Z") ] |}.

(** The world a call leaves behind, whether it returned or ended the
    process. *)
Definition final_world {A : Type} (o : outcome A) : World :=
  match o with
  | Returned _ w => w
  | Exited _ w => w
  end.

(* ===================================================================== *)
(** * The streaming loop on a decoder that can hit a syntax error *)
(* ===================================================================== *)

(** What a [json.Decoder] finds next in the array: an element that is a
    well-formed JSON value ([Element], decoding into [Model] or not), or
    text that starts a value and is not JSON ([SyntaxError]). *)
Inductive item : Type :=
  | Element (d : decoded)
  | SyntaxError (e : string).

(** The state of a [json.Decoder] inside the array: what is still unread,
    and the error it keeps ([dec.err]). *)
Record Decoder := mkDecoder {
  pending : list item;
  dec_err : option string;
}.

(** [dec.More()]: there is unread text that does not close the array. It
    does not look at [dec.err]. *)
Definition dec_More (dec : Decoder) : bool :=
  match pending dec with
  | [] => false
  | _ :: _ => true
  end.

(** [dec.Decode(&m)]. A kept error is returned at once. A well-formed value
    is consumed, whether it fits [Model] or not ("the connection is still
    usable since we read a complete JSON object"). A syntax error is kept
    in [dec.err] and the read position stays where it was. *)
Definition dec_Decode (dec : Decoder) : result Model * Decoder :=
  match dec_err dec with
  | Some e => (Err e, dec)
  | None =>
      match pending dec with
      | [] => (Err "EOF", dec)
      | Element (Value md) :: rest =>
          (Ok md, {| pending := rest; dec_err := None |})
      | Element (Malformed e) :: rest =>
          (Err e, {| pending := rest; dec_err := None |})
      | SyntaxError e :: rest =>
          (Err e, {| pending := SyntaxError e :: rest; dec_err := Some e |})
      end
  end.

(** [for dec.More() { m := Model{}; if err := dec.Decode(&m); ... }] of
    [readAllStreamingInternal], run for at most [fuel] iterations: [Some]
    of the records appended when the loop has ended, [None] when it is
    still running after [fuel] iterations. *)
Fixpoint decode_loop_steps (fuel : nat) (proc : Model → Globals → Globals)
    (dec : Decoder) (dataModel : list Model) : M (option (list Model)) :=
  if dec_More dec then
    match fuel with
    | O => mret None
    | S fuel' =>
        match dec_Decode dec with
        | (Err e, dec') =>
            log_Println ("decoding err =>  " +:+ e);;
            decode_loop_steps fuel' proc dec' dataModel
        | (Ok md, dec') =>
            modify_globals (proc md);;
            decode_loop_steps fuel' proc dec' (dataModel ++ [md])
        end
    end
  else mret (Some dataModel).

(** The array [[{"id":"1","type":"PushEvent"},{"id":tru},
    {"id":"3","type":"PushEvent"}]] after its opening bracket: the second
    element is not JSON. *)
Definition example_broken_stream : Decoder :=
  {| pending :=
       [ Element (Value (mkModel "1" "PushEvent" false EmptyString));
         SyntaxError "invalid character 'u' in literal true (expecting 'e')";
         Element (Value (mkModel "3" "PushEvent" false EmptyString)) ];
     dec_err := None |}.

(** A server that cannot be reached, on a file system where no file can be
    closed. *)
Definition example_env_offline_unclosable : Env :=
  {| Args := [];
     http_Get := λ _, Err "dial tcp: i/o timeout";
     create_err := λ _, None;
     write_err := λ _, None;
     close_err := λ _, Some "input/output error";
     trace_Start_err := None;
     gob_Encode := λ _, Ok [];
     gzip_bytes := λ data, data |}.

(* ===================================================================== *)
(** * Memory statistics *)
(* ===================================================================== *)

(** The fields of [runtime.MemStats] that [memUsage] reads; each is a
    [uint64]. *)
Record MemStats := mkMemStats {
  Alloc : N;
  HeapAlloc : N;
  TotalAlloc : N;
}.

(** [x - y] on [uint64] values: it wraps around when [y] is the larger. *)
Definition uint64_sub (x y : N) : N := ((x + uint_bound - y) mod uint_bound)%N.

(** One of the three figures of [memUsage]: [(new - old) / 1000000]. *)
Definition memDelta (old new : N) : N := (uint64_sub new old / 1000000)%N.

(** [memUsage]: the line it prints on standard output. The two figures of
    the filter, [blomfil.ApproximatedSize()] (computed in floating point)
    and [blomfil.BitSet().BinaryStorageSize()], are taken as given. *)
Definition memUsage (mOld mNew : MemStats) (approximatedSize storageSize : N)
    : string :=
  "[Alloc]: " +:+ pretty (memDelta (Alloc mOld) (Alloc mNew))
    +:+ ", [Heap]: " +:+ pretty (memDelta (HeapAlloc mOld) (HeapAlloc mNew))
    +:+ ", [Total]: " +:+ pretty (memDelta (TotalAlloc mOld) (TotalAlloc mNew))
    +:+ "  MBs BloomFil: (" +:+ pretty approximatedSize
    +:+ " , " +:+ pretty storageSize +:+ ") ".

(** A server that cannot be reached, on a file system where everything
    works. *)
Definition example_env_offline : Env :=
  {| Args := [];
     http_Get := λ _, Err "dial tcp: i/o timeout";
     create_err := λ _, None;
     write_err := λ _, None;
     close_err := λ _, None;
     trace_Start_err := None;
     gob_Encode := λ _, Ok [];
     gzip_bytes := λ data, data |}.

(** A file system on which the named file can be created but not written. *)
Definition example_env_full_disk (name : string) : Env :=
  {| Args := [];
     http_Get := λ _, Ok example_body;
     create_err := λ _, None;
     write_err := λ n, if decide (n = name) then Some "no space left on device" else None;
     close_err := λ _, None;
     trace_Start_err := None;
     gob_Encode := λ _, Ok [];
     gzip_bytes := λ data, data |}.

(* ===================================================================== *)
(** * Digits, bytes and words *)
(* ===================================================================== *)

Lemma length_le_digits (base : N) (n : nat) (x : N) :
  length (le_digits base n x) = n.
Proof. revert x. induction n as [|n IH]; intros x; simpl; [done|]. by rewrite IH. Qed.

Lemma le_digits_bounded (base : N) (n : nat) (x : N) :
  base ≠ 0%N → Forall (λ d, (d < base)%N) (le_digits base n x).
Proof.
  intros Hb. revert x. induction n as [|n IH]; intros x; simpl.
  - constructor.
  - constructor; [by apply N.mod_lt | apply IH].
Qed.

Lemma of_le_digits_le_digits (base : N) (n : nat) (x : N) :
  base ≠ 0%N →
  of_le_digits base (le_digits base n x) = (x mod base ^ N.of_nat n)%N.
Proof.
  intros Hb. revert x. induction n as [|n IH]; intros x.
  - simpl. by rewrite N.mod_1_r.
  - cbn [le_digits of_le_digits]. rewrite IH.
    rewrite Nat2N.inj_succ, N.pow_succ_r'.
    symmetry. apply N.Div0.mod_mul_r.
Qed.

Lemma to_N_byte_of_N (d : N) : (d < 256)%N → Byte.to_N (byte_of_N d) = d.
Proof.
  intros Hd. unfold byte_of_N.
  destruct (Byte.of_N d) as [y|] eqn:E.
  - by apply Byte.to_of_N.
  - apply Byte.of_N_None_iff in E. lia.
Qed.

Lemma to_N_byte_of_N_list (ds : list N) :
  Forall (λ d, (d < 256)%N) ds → map Byte.to_N (map byte_of_N ds) = ds.
Proof.
  induction 1 as [|d ds Hd _ IH]; simpl; [done|].
  by rewrite to_N_byte_of_N, IH.
Qed.

Lemma length_PutUint64 (x : N) : length (PutUint64 x) = 8.
Proof. unfold PutUint64. by rewrite length_map, length_rev, length_le_digits. Qed.

Lemma Uint64_PutUint64 (x : N) : Uint64 (PutUint64 x) = (x mod uint_bound)%N.
Proof.
  unfold Uint64, PutUint64.
  rewrite to_N_byte_of_N_list.
  - rewrite rev_involutive, of_le_digits_le_digits by done. done.
  - apply Forall_rev, le_digits_bounded. done.
Qed.

Lemma read_uint64_app (l rest : list byte) :
  length l = 8 → read_uint64 (l ++ rest) = Some (Uint64 l, rest).
Proof.
  intros Hl.
  do 8 (destruct l as [|? l]; [discriminate Hl|]).
  destruct l; [reflexivity | discriminate Hl].
Qed.

Lemma read_uint64_PutUint64 (x : N) (rest : list byte) :
  read_uint64 (PutUint64 x ++ rest) = Some ((x mod uint_bound)%N, rest).
Proof. by rewrite read_uint64_app, Uint64_PutUint64 by apply length_PutUint64. Qed.

Lemma read_words_flat_map (ws : list N) (rest : list byte) :
  Forall (λ d, (d < uint_bound)%N) ws →
  read_words (length ws) (flat_map PutUint64 ws ++ rest) = Some (ws, rest).
Proof.
  induction 1 as [|w ws Hw _ IH]; [done|].
  cbn [length flat_map read_words].
  rewrite <- app_assoc, read_uint64_PutUint64. cbn [mbind option_bind].
  rewrite IH. cbn [mbind option_bind]. by rewrite N.mod_small.
Qed.

(* ===================================================================== *)
(** * The estimator *)
(* ===================================================================== *)

Lemma testbit_fold_setbit (l : list N) (a i : N) :
  N.testbit (fold_left N.setbit l a) i = N.testbit a i || bool_decide (i ∈ l).
Proof.
  revert a. induction l as [|j l IH]; intros a; simpl.
  - by rewrite orb_false_r.
  - rewrite IH, N.setbit_eqb.
    destruct (N.eqb_spec j i) as [->|Hne].
    + rewrite (bool_decide_eq_true_2 (i ∈ i :: l)) by (apply elem_of_cons; by left).
      by rewrite orb_true_r.
    + simpl. destruct (N.testbit a i); simpl; [done|].
      apply bool_decide_ext. rewrite elem_of_cons.
      split; [by right | intros [->|Hi]; [congruence | done]].
Qed.

Lemma fold_setbit_lt (l : list N) (a n : N) :
  (a < 2 ^ n)%N → Forall (λ i, (i < n)%N) l → (fold_left N.setbit l a < 2 ^ n)%N.
Proof.
  intros Ha Hl. revert a Ha. induction Hl as [|i l Hi _ IH]; intros a Ha; simpl; [done|].
  apply IH.
  destruct (N.eq_dec (N.setbit a i) 0%N) as [->|Hnz].
  { apply N.neq_0_lt_0, N.pow_nonzero. lia. }
  apply N.log2_lt_pow2; [lia|].
  rewrite N.setbit_spec', N.log2_lor, N.log2_pow2 by lia.
  destruct (N.eq_dec a 0%N) as [->|Ha0].
  - simpl. lia.
  - apply N.log2_lt_pow2 in Ha; lia.
Qed.

Section EstimatorFacts.
Context `{HashFamily}.

Lemma locations_AddString (f : bloom.BloomFilter) (s t : string) :
  bloom.locations (bloom.AddString f s) t = bloom.locations f t.
Proof. reflexivity. Qed.

Lemma TestString_spec (f : bloom.BloomFilter) (s : string) :
  bloom.TestString f s = true ↔ ∀ i, i ∈ bloom.locations f s → N.testbit (bloom.b f) i = true.
Proof.
  unfold bloom.TestString. rewrite forallb_forall.
  split; intros Hall i Hi; apply Hall; by apply list_elem_of_In.
Qed.

Lemma testbit_AddString (f : bloom.BloomFilter) (s : string) (i : N) :
  N.testbit (bloom.b (bloom.AddString f s)) i
  = N.testbit (bloom.b f) i || bool_decide (i ∈ bloom.locations f s).
Proof. apply testbit_fold_setbit. Qed.

(** Insertion only sets bits: a bit that is set stays set. *)
Lemma testbit_AddString_mono (f : bloom.BloomFilter) (s : string) (i : N) :
  N.testbit (bloom.b f) i = true →
  N.testbit (bloom.b (bloom.AddString f s)) i = true.
Proof. intros Hi. by rewrite testbit_AddString, Hi. Qed.

Lemma TestString_AddString (f : bloom.BloomFilter) (s : string) :
  bloom.TestString (bloom.AddString f s) s = true.
Proof.
  apply TestString_spec. intros i Hi. rewrite locations_AddString in Hi.
  rewrite testbit_AddString, (bool_decide_eq_true_2 _ Hi). apply orb_true_r.
Qed.

Lemma TestString_AddString_mono (f : bloom.BloomFilter) (s t : string) :
  bloom.TestString f s = true → bloom.TestString (bloom.AddString f t) s = true.
Proof.
  rewrite !TestString_spec. intros Hall i Hi.
  apply testbit_AddString_mono, Hall. by rewrite locations_AddString in Hi.
Qed.

Lemma TestString_fold_mono (f : bloom.BloomFilter) (s : string) (ts : list string) :
  bloom.TestString f s = true →
  bloom.TestString (fold_left bloom.AddString ts f) s = true.
Proof.
  revert f. induction ts as [|t ts IH]; intros f Hs; simpl; [done|].
  by apply IH, TestString_AddString_mono.
Qed.

Lemma TestString_fold_elem (f : bloom.BloomFilter) (s : string) (ts : list string) :
  s ∈ ts → bloom.TestString (fold_left bloom.AddString ts f) s = true.
Proof.
  revert f. induction ts as [|t ts IH]; intros f Hs; [by apply elem_of_nil in Hs|].
  simpl. apply elem_of_cons in Hs as [->|Hs].
  - apply TestString_fold_mono, TestString_AddString.
  - by apply IH.
Qed.

Lemma BloomFilter_eq (f g : bloom.BloomFilter) :
  bloom.m f = bloom.m g → bloom.k f = bloom.k g → bloom.b f = bloom.b g → f = g.
Proof. destruct f, g; simpl; by intros -> -> ->. Qed.

Lemma AddString_idemp (f : bloom.BloomFilter) (s : string) :
  bloom.AddString (bloom.AddString f s) s = bloom.AddString f s.
Proof.
  apply BloomFilter_eq; [done..|].
  apply N.bits_inj. intros i. 
  rewrite testbit_AddString, locations_AddString, testbit_AddString.
  by destruct (N.testbit (bloom.b f) i), (bool_decide (i ∈ bloom.locations f s)).
Qed.

Lemma AddString_comm (f : bloom.BloomFilter) (s t : string) :
  bloom.AddString (bloom.AddString f s) t = bloom.AddString (bloom.AddString f t) s.
Proof.
  apply BloomFilter_eq; [done..|].
  apply N.bits_inj. intros i.
  rewrite !testbit_AddString, !locations_AddString.
  by destruct (N.testbit (bloom.b f) i), (bool_decide (i ∈ bloom.locations f s)),
    (bool_decide (i ∈ bloom.locations f t)).
Qed.

Lemma iter_AddString (f : bloom.BloomFilter) (s : string) (n : nat) :
  Nat.iter (S n) (λ g, bloom.AddString g s) f = bloom.AddString f s.
Proof.
  induction n as [|n IH]; [done|].
  change (Nat.iter (S (S n)) (λ g, bloom.AddString g s) f)
    with (bloom.AddString (Nat.iter (S n) (λ g, bloom.AddString g s) f) s).
  by rewrite IH, AddString_idemp.
Qed.

(** ** The representation invariant *)

Lemma wf_New (m k : N) :
  (1 ≤ m < uint_bound)%N → (k < uint_bound)%N → bloom.wf (bloom.New m k).
Proof.
  intros Hm Hk. unfold bloom.wf, bloom.New, uint_bound in *. simpl.
  repeat split; lia.
Qed.

Lemma locations_lt (f : bloom.BloomFilter) (s : string) :
  bloom.m f ≠ 0%N → Forall (λ i, (i < bloom.m f)%N) (bloom.locations f s).
Proof.
  intros Hm. unfold bloom.locations. apply Forall_map, Forall_forall.
  intros i _. simpl. unfold bloom.location. by apply N.mod_lt.
Qed.

Lemma wf_AddString (f : bloom.BloomFilter) (s : string) :
  bloom.wf f → bloom.wf (bloom.AddString f s).
Proof.
  intros (Hm & Hk & Hb). unfold bloom.wf. simpl. repeat split; try tauto.
  apply fold_setbit_lt; [done|]. apply locations_lt. lia.
Qed.

(** ** Serialization *)

Lemma pow_words_ge (m : N) : (2 ^ m ≤ uint_bound ^ N.of_nat (bloom.wordsNeeded m))%N.
Proof.
  unfold uint_bound, bloom.wordsNeeded. rewrite N2Nat.id, <- N.pow_mul_r.
  apply N.pow_le_mono_r; [lia|].
  pose proof (N.Div0.mod_le (m + 63) 64).
  pose proof (N.div_mod (m + 63) 64 ltac:(lia)).
  pose proof (N.mod_lt (m + 63) 64 ltac:(lia)). lia.
Qed.

Lemma GobDecode_GobEncode (f : bloom.BloomFilter) :
  bloom.wf f → bloom.GobDecode (bloom.GobEncode f) = Some f.
Proof.
  intros (Hm & Hk & Hb). unfold bloom.GobDecode, bloom.GobEncode.
  rewrite read_uint64_PutUint64. cbn [mbind option_bind].
  rewrite read_uint64_PutUint64. cbn [mbind option_bind].
  rewrite (N.mod_small (bloom.m f)) by lia.
  rewrite <- (app_nil_r (flat_map _ _)).
  pose proof (read_words_flat_map
    (le_digits uint_bound (bloom.wordsNeeded (bloom.m f)) (bloom.b f)) []) as Hr.
  rewrite length_le_digits in Hr. rewrite Hr by (by apply le_digits_bounded).
  cbn [mbind option_bind]. f_equal. apply BloomFilter_eq; cbn [bloom.m bloom.k bloom.b].
  - done.
  - apply N.mod_small. lia.
  - rewrite of_le_digits_le_digits by done. apply N.mod_small.
    eapply N.lt_le_trans; [exact Hb | apply pow_words_ge].
Qed.

End EstimatorFacts.

(* ===================================================================== *)
(** * Counters *)
(* ===================================================================== *)

Lemma int_wrap_small (z : Z) : (- 2 ^ 63 ≤ z ≤ int_max)%Z → int_wrap z = z.
Proof.
  unfold int_wrap, int_max. intros Hz.
  rewrite Z.mod_small; lia.
Qed.

Lemma int_add_wrap (a b : Z) : int_add (int_wrap a) b = int_wrap (a + b).
Proof.
  unfold int_add, int_wrap. f_equal.
  replace ((a + 2 ^ 63) `mod` 2 ^ 64 - 2 ^ 63 + b + 2 ^ 63)%Z
    with ((a + 2 ^ 63) `mod` 2 ^ 64 + b)%Z by lia.
  rewrite Zplus_mod_idemp_l. f_equal. lia.
Qed.

Section CoreFacts.
Context `{HashFamily}.

(** ** The two passes *)

Lemma pass_cons (proc : Model → Globals → Globals) md l g :
  pass proc (md :: l) g = pass proc l (proc md g).
Proof. reflexivity. Qed.

Lemma tracked_cons (md : Model) (l : list Model) :
  tracked (md :: l)
  = if decide (Type_ md = "PushEvent") then Id md :: tracked l else tracked l.
Proof. unfold tracked. rewrite filter_cons. by case_decide. Qed.

Lemma pass_ProcessChunkUsingMap (l : list Model) (g : Globals) :
  pass ProcessChunkUsingMap l g
  = {| pushEventMap := fold_left (λ mp k, <[k := true]> mp) (tracked l) (pushEventMap g);
       blomfil := blomfil g;
       halfblomfil := halfblomfil g |}.
Proof.
  revert g. induction l as [|md l IH]; intros g.
  - by destruct g.
  - rewrite pass_cons, IH, tracked_cons. unfold ProcessChunkUsingMap.
    by case_decide.
Qed.

Lemma pass_ProcessChunkUsingBloom (l : list Model) (g : Globals) :
  pass ProcessChunkUsingBloom l g
  = {| pushEventMap := pushEventMap g;
       blomfil := fold_left bloom.AddString (tracked l) (blomfil g);
       halfblomfil := fold_left bloom.AddString (tracked l) (halfblomfil g) |}.
Proof.
  revert g. induction l as [|md l IH]; intros g.
  - by destruct g.
  - rewrite pass_cons, IH, tracked_cons. unfold ProcessChunkUsingBloom.
    by case_decide.
Qed.

Lemma lookup_fold_insert (ks : list string) (mp : gmap string bool) (k : string) :
  fold_left (λ mp k, <[k := true]> mp) ks mp !! k
  = if decide (k ∈ ks) then Some true else mp !! k.
Proof.
  revert mp. induction ks as [|k' ks IH]; intros mp.
  - destruct (decide (k ∈ [])) as [Hk|]; [by apply elem_of_nil in Hk | done].
  - cbn [fold_left]. rewrite IH. destruct (decide (k ∈ ks)) as [Hin|Hnin].
    + rewrite decide_True; [done | by right].
    + destruct (decide (k = k')) as [->|Hne].
      * rewrite lookup_insert_eq, decide_True; [done | by left].
      * rewrite lookup_insert_ne by done.
        rewrite decide_False; [done|].
        rewrite elem_of_cons. intros [?|?]; done.
Qed.

Lemma elem_of_tracked (k : string) (l : list Model) :
  k ∈ tracked l ↔ ∃ md, md ∈ l ∧ Type_ md = "PushEvent" ∧ Id md = k.
Proof.
  unfold tracked. rewrite list_elem_of_fmap. split.
  - intros (md & -> & Hmd). apply list_elem_of_filter in Hmd as [Ht Hin]. eauto.
  - intros (md & Hin & Ht & <-). exists md. split; [done|].
    by apply list_elem_of_filter.
Qed.

(** ** Order of insertion *)

Lemma pass_Permutation (proc : Model → Globals → Globals) :
  (∀ a b g, proc a (proc b g) = proc b (proc a g)) →
  ∀ l l', l ≡ₚ l' → ∀ g, pass proc l g = pass proc l' g.
Proof.
  intros Hcomm l l' Hperm.
  induction Hperm as [|x l l' _ IH|x y l|l l' l'' _ IH1 _ IH2]; intros g.
  - done.
  - rewrite !pass_cons. apply IH.
  - rewrite !pass_cons. by rewrite Hcomm.
  - by rewrite IH1, IH2.
Qed.

Lemma ProcessChunkUsingMap_comm (a b : Model) (g : Globals) :
  ProcessChunkUsingMap a (ProcessChunkUsingMap b g)
  = ProcessChunkUsingMap b (ProcessChunkUsingMap a g).
Proof.
  unfold ProcessChunkUsingMap. repeat case_decide; try done. simpl.
  f_equal. destruct (decide (Id a = Id b)) as [->|Hne]; [done|].
  by apply insert_insert_ne.
Qed.

Lemma ProcessChunkUsingBloom_comm (a b : Model) (g : Globals) :
  ProcessChunkUsingBloom a (ProcessChunkUsingBloom b g)
  = ProcessChunkUsingBloom b (ProcessChunkUsingBloom a g).
Proof.
  unfold ProcessChunkUsingBloom. repeat case_decide; try done. simpl.
  f_equal; apply AddString_comm.
Qed.

(** ** The loop of [Confirm] *)

Lemma range_order_length (mp : gmap string bool) (ks : list string) :
  range_order mp ks → length ks = size mp.
Proof.
  unfold range_order. intros ->. by rewrite length_fmap, length_map_to_list.
Qed.

Lemma range_order_elem (mp : gmap string bool) (ks : list string) (k : string) :
  range_order mp ks → k ∈ ks → is_Some (mp !! k).
Proof.
  unfold range_order. intros -> Hk.
  apply list_elem_of_fmap in Hk as ([k' v] & -> & Hkv).
  apply elem_of_map_to_list in Hkv. by exists v.
Qed.

Lemma range_order_map_to_list (mp : gmap string bool) :
  range_order mp (map_to_list mp).*1.
Proof. by unfold range_order. Qed.

(** Keys the filter reports present, and keys it reports absent. *)
Lemma length_filter_TestString (f : bloom.BloomFilter) (ks : list string) :
  length (filter (λ k, bloom.TestString f k = true) ks)
  + length (filter (λ k, bloom.TestString f k = false) ks) = length ks.
Proof.
  induction ks as [|k ks IH]; [done|].
  rewrite !filter_cons. destruct (bloom.TestString f k) eqn:E.
  - rewrite decide_True, decide_False by done. simpl. lia.
  - rewrite decide_False, decide_True by done. simpl. lia.
Qed.

Lemma fold_Confirm_step (g : Globals) (ks : list string) (a b c d : Z) :
  fold_left (Confirm_step g) ks
    {| hitCount := int_wrap a; missCount := int_wrap b;
       halfCoount := int_wrap c; mhalfCount := int_wrap d |}
  = {| hitCount := int_wrap
         (a + Z.of_nat (length (filter (λ k, bloom.TestString (blomfil g) k = true) ks)))%Z;
       missCount := int_wrap
         (b + Z.of_nat (length (filter (λ k, bloom.TestString (blomfil g) k = false) ks)))%Z;
       halfCoount := int_wrap
         (c + Z.of_nat (length (filter (λ k, bloom.TestString (halfblomfil g) k = true) ks)))%Z;
       mhalfCount := int_wrap
         (d + Z.of_nat (length (filter (λ k, bloom.TestString (halfblomfil g) k = false) ks)))%Z |}.
Proof.
  revert a b c d. induction ks as [|k ks IH]; intros a b c d.
  - simpl. by rewrite !Z.add_0_r.
  - cbn [fold_left]. unfold Confirm_step at 2. rewrite !filter_cons.
    destruct (bloom.TestString (blomfil g) k) eqn:E1;
    destruct (bloom.TestString (halfblomfil g) k) eqn:E2;
    cbn [hitCount missCount halfCoount mhalfCount];
    rewrite !int_add_wrap, IH;
    repeat case_decide; try done;
    cbn [length]; f_equal; f_equal; lia.
Qed.

Lemma Confirm_tally_counts (ks : list string) (g : Globals) :
  Confirm_tally ks g
  = {| hitCount := int_wrap
         (Z.of_nat (length (filter (λ k, bloom.TestString (blomfil g) k = true) ks)));
       missCount := int_wrap
         (Z.of_nat (length (filter (λ k, bloom.TestString (blomfil g) k = false) ks)));
       halfCoount := int_wrap
         (Z.of_nat (length (filter (λ k, bloom.TestString (halfblomfil g) k = true) ks)));
       mhalfCount := int_wrap
         (Z.of_nat (length (filter (λ k, bloom.TestString (halfblomfil g) k = false) ks))) |}.
Proof. unfold Confirm_tally. apply (fold_Confirm_step g ks 0 0 0 0). Qed.

Lemma filter_all (f : bloom.BloomFilter) (ks : list string) :
  (∀ k, k ∈ ks → bloom.TestString f k = true) →
  filter (λ k, bloom.TestString f k = true) ks = ks
  ∧ filter (λ k, bloom.TestString f k = false) ks = [].
Proof.
  induction ks as [|k ks IH]; intros Hall; [done|].
  destruct IH as [IH1 IH2]; [intros k' Hk'; apply Hall; by right|].
  rewrite !filter_cons, IH1, IH2.
  assert (bloom.TestString f k = true) as E by (apply Hall; by left).
  rewrite decide_True, decide_False by (by rewrite ?E). done.
Qed.

End CoreFacts.

(* ===================================================================== *)
(** * The readers and the persistence *)
(* ===================================================================== *)

Lemma bindM_Returned {A B : Type} (c : M A) (f : A → M B) (w w' : World) (a : A) :
  c w = Returned a w' → bindM c f w = f a w'.
Proof. unfold bindM, mbind, M_bind. by intros ->. Qed.

Lemma seq_Returned {A B : Type} (c : M A) (k : M B) (w w' : World) (a : A) :
  c w = Returned a w' → (c;; k) w = k w'.
Proof. unfold mbind, M_bind. by intros ->. Qed.

Lemma seq_Exited {A B : Type} (c : M A) (k : M B) (w w' : World) (code : Z) :
  c w = Exited code w' → (c;; k) w = Exited code w'.
Proof. unfold mbind, M_bind. by intros ->. Qed.

Lemma collect_Malformed (ds : list decoded) (e0 : string) :
  Malformed e0 ∈ ds → ∃ e, collect ds = Err e.
Proof.
  induction ds as [|d ds IH]; intros Hin; [by apply elem_of_nil in Hin|].
  apply elem_of_cons in Hin as [<-|Hin]; [by exists e0|].
  destruct d as [md|e]; [|by exists e]. simpl.
  destruct (IH Hin) as [e ->]. by exists e.
Qed.

Lemma collect_records_of (ds : list decoded) (l : list Model) :
  collect ds = Ok l → l = records_of ds.
Proof.
  revert l. induction ds as [|[md|e] ds IH]; intros l; simpl; [congruence| |done].
  destruct (collect ds) as [l'|]; [|done].
  intros [= <-]. by rewrite (IH l').
Qed.

Lemma decode_loop_Returned (proc : Model → Globals → Globals)
    (ds : list decoded) (dataModel : list Model) (w : World) :
  decode_loop proc ds dataModel w
  = Returned (dataModel ++ records_of ds)%list
      {| globals := pass proc (records_of ds) (globals w);
         flags := flags w; tracing := tracing w; requests := requests w;
         files := files w;
         logged :=
           (logged w ++ (String.append "decoding err =>  " <$> errors_of ds))%list |}.
Proof.
  revert dataModel w. induction ds as [|[md|e] ds IH]; intros dataModel w.
  - simpl. rewrite !app_nil_r. by destruct w.
  - cbn [decode_loop]. erewrite seq_Returned by reflexivity. rewrite IH.
    simpl. by rewrite <- app_assoc.
  - cbn [decode_loop]. erewrite seq_Returned by reflexivity. rewrite IH.
    simpl. by rewrite <- app_assoc.
Qed.

Lemma range_proc_Returned (proc : Model → Globals → Globals)
    (l : list Model) (w : World) :
  range_proc proc l w = Returned () (set_globals (pass proc l (globals w)) w).
Proof.
  revert w. induction l as [|md l IH]; intros w.
  - by destruct w.
  - cbn [range_proc]. erewrite seq_Returned by reflexivity. by rewrite IH.
Qed.

(** [Save] always returns to its caller, and a failed write is not even
    reported. *)
Lemma Save_Returned (env : Env) (filename : string) (data : list byte) (w : World) :
  ∃ err w', Save env filename data w = Returned err w'
    ∧ (create_err env filename = None → err = None).
Proof.
  unfold Save, bindM, mbind, M_bind, os_Create, gzip_Write.
  destruct (create_err env filename) as [e|]; [by eexists _, _|].
  destruct (write_err env filename) as [e|]; by eexists _, _.
Qed.

(** [main] never looks at the command line. *)
Lemma main_with_Args `{HashFamily} (env : Env) (args : list string) (w : World) :
  main (with_Args args env) w = main env w.
Proof. reflexivity. Qed.

(* ===================================================================== *)
(** * The properties of the specification *)
(* ===================================================================== *)

(** C1. Reconciliation zero-miss: start from an empty exact set and any two
    estimators; run one pass of [ProcessChunkUsingMap] and one pass of
    [ProcessChunkUsingBloom] over the same records. Then [Confirm], in
    whatever order it visits the keys, counts for each estimator as many
    hits as the exact set has keys, and no miss. *)
Theorem reconciliation_zero_miss `{HashFamily} (records : list Model)
    (bf hbf : bloom.BloomFilter) (ks : list string) :
  let g0 := {| pushEventMap := ∅; blomfil := bf; halfblomfil := hbf |} in
  let g := pass ProcessChunkUsingBloom records (pass ProcessChunkUsingMap records g0) in
  range_order (pushEventMap g) ks →
  (Z.of_nat (size (pushEventMap g)) ≤ int_max)%Z →
  Confirm_tally ks g
  = {| hitCount := Z.of_nat (size (pushEventMap g)); missCount := 0;
       halfCoount := Z.of_nat (size (pushEventMap g)); mhalfCount := 0 |}.
Proof.
  intros g0 g Hks Hsize.
  assert (Hall : ∀ k, k ∈ ks → k ∈ tracked records).
  { intros k Hk. apply (range_order_elem _ _ _ Hks) in Hk as [v Hv].
    subst g g0. rewrite pass_ProcessChunkUsingBloom, pass_ProcessChunkUsingMap in Hv.
    cbn [pushEventMap] in Hv. rewrite lookup_fold_insert in Hv.
    case_decide; [done|]. by rewrite lookup_empty in Hv. }
  assert (Hfull : ∀ k, k ∈ ks → bloom.TestString (blomfil g) k = true).
  { intros k Hk. subst g. rewrite pass_ProcessChunkUsingBloom. cbn [blomfil].
    apply TestString_fold_elem, Hall, Hk. }
  assert (Hhalf : ∀ k, k ∈ ks → bloom.TestString (halfblomfil g) k = true).
  { intros k Hk. subst g. rewrite pass_ProcessChunkUsingBloom. cbn [halfblomfil].
    apply TestString_fold_elem, Hall, Hk. }
  rewrite Confirm_tally_counts.
  destruct (filter_all _ _ Hfull) as [-> ->].
  destruct (filter_all _ _ Hhalf) as [-> ->].
  rewrite (range_order_length _ _ Hks). cbn [length].
  unfold int_max in Hsize.
  rewrite !int_wrap_small; [done | unfold int_max; lia..].
Qed.

(** C2. No false negatives: after an identifier is inserted into an
    estimator, [TestString] on it is true, at once and after any further
    insertions. *)
Theorem no_false_negatives `{HashFamily} (f : bloom.BloomFilter) (id : string)
    (later : list string) :
  bloom.TestString (fold_left bloom.AddString later (bloom.AddString f id)) id = true.
Proof. apply TestString_fold_mono, TestString_AddString. Qed.

(** C4. Classifier selectivity: a record of type "PushEvent" has its
    identifier put in the exact set by [ProcessChunkUsingMap] and in both
    estimators by [ProcessChunkUsingBloom]; a record of any other type
    leaves all three stores as they are. Over a whole pass, the keys added
    to the set and the insertions into the estimators are those of the
    "PushEvent" records and no others. *)
Theorem classifier_selectivity `{HashFamily} (md : Model) (records : list Model)
    (g : Globals) :
  (Type_ md = "PushEvent" →
     ProcessChunkUsingMap md g
     = {| pushEventMap := <[Id md := true]> (pushEventMap g);
          blomfil := blomfil g; halfblomfil := halfblomfil g |}
     ∧ ProcessChunkUsingBloom md g
     = {| pushEventMap := pushEventMap g;
          blomfil := bloom.AddString (blomfil g) (Id md);
          halfblomfil := bloom.AddString (halfblomfil g) (Id md) |})
  ∧ (Type_ md ≠ "PushEvent" →
     ProcessChunkUsingMap md g = g ∧ ProcessChunkUsingBloom md g = g)
  ∧ (∀ k,
       ((∃ r, r ∈ records ∧ Type_ r = "PushEvent" ∧ Id r = k) →
          pushEventMap (pass ProcessChunkUsingMap records g) !! k = Some true)
       ∧ (¬ (∃ r, r ∈ records ∧ Type_ r = "PushEvent" ∧ Id r = k) →
          pushEventMap (pass ProcessChunkUsingMap records g) !! k
          = pushEventMap g !! k))
  ∧ pass ProcessChunkUsingBloom records g
    = {| pushEventMap := pushEventMap g;
         blomfil := fold_left bloom.AddString
           (Id <$> filter (λ r, Type_ r = "PushEvent") records) (blomfil g);
         halfblomfil := fold_left bloom.AddString
           (Id <$> filter (λ r, Type_ r = "PushEvent") records) (halfblomfil g) |}.
Proof.
  split; [|split; [|split]].
  - intros Ht. unfold ProcessChunkUsingMap, ProcessChunkUsingBloom.
    by rewrite !decide_True.
  - intros Ht. unfold ProcessChunkUsingMap, ProcessChunkUsingBloom.
    by rewrite !decide_False.
  - intros k. rewrite pass_ProcessChunkUsingMap. cbn [pushEventMap].
    rewrite lookup_fold_insert.
    rewrite <- elem_of_tracked. split; intros Hk.
    + by rewrite decide_True.
    + by rewrite decide_False.
  - apply pass_ProcessChunkUsingBloom.
Qed.

(** C6. Idempotent insertion: inserting one identifier [n ≥ 1] times leaves
    an estimator that answers every [TestString] as the estimator after one
    insertion does, and that serializes to the same bytes. *)
Theorem idempotent_insertion `{HashFamily} (f : bloom.BloomFilter) (id : string)
    (n : nat) :
  (1 ≤ n)%nat →
  (∀ q, bloom.TestString (Nat.iter n (λ g, bloom.AddString g id) f) q
        = bloom.TestString (bloom.AddString f id) q)
  ∧ bloom.GobEncode (Nat.iter n (λ g, bloom.AddString g id) f)
    = bloom.GobEncode (bloom.AddString f id).
Proof.
  intros Hn. destruct n as [|n]; [lia|].
  by rewrite iter_AddString.
Qed.

(** C7. Round-trip serialization: decoding the bytes an estimator encodes to
    gives an estimator that answers [TestString] as the original does, on
    every identifier, inserted or not. *)
Theorem serialization_round_trip `{HashFamily} (f : bloom.BloomFilter) :
  bloom.wf f →
  ∃ f', bloom.GobDecode (bloom.GobEncode f) = Some f'
        ∧ ∀ id, bloom.TestString f' id = bloom.TestString f id.
Proof. intros Hwf. exists f. by rewrite GobDecode_GobEncode. Qed.

(** C8. Order insensitivity: processing a permutation of a sequence of
    records ends in the same exact set and the same two estimators as
    processing the sequence itself, so every [TestString] agrees. *)
Theorem insertion_order_insensitive `{HashFamily} (l l' : list Model) (g : Globals) :
  l ≡ₚ l' →
  pass ProcessChunkUsingMap l' g = pass ProcessChunkUsingMap l g
  ∧ pass ProcessChunkUsingBloom l' g = pass ProcessChunkUsingBloom l g
  ∧ ∀ id,
      bloom.TestString (blomfil (pass ProcessChunkUsingBloom l' g)) id
      = bloom.TestString (blomfil (pass ProcessChunkUsingBloom l g)) id
      ∧ bloom.TestString (halfblomfil (pass ProcessChunkUsingBloom l' g)) id
        = bloom.TestString (halfblomfil (pass ProcessChunkUsingBloom l g)) id.
Proof.
  intros Hperm.
  pose proof (pass_Permutation _ ProcessChunkUsingMap_comm _ _ Hperm g) as HM.
  pose proof (pass_Permutation _ ProcessChunkUsingBloom_comm _ _ Hperm g) as HB.
  by rewrite HM, HB.
Qed.

(** C10. The tallies partition the exact set twice: for any exact set and
    any two estimators, healthy or not, hits plus misses of the full filter
    is the number of keys, and so is hits plus misses of the half filter. *)
Theorem tallies_partition `{HashFamily} (g : Globals) (ks : list string) :
  range_order (pushEventMap g) ks →
  (Z.of_nat (size (pushEventMap g)) ≤ int_max)%Z →
  (hitCount (Confirm_tally ks g) + missCount (Confirm_tally ks g)
   = Z.of_nat (size (pushEventMap g)))%Z
  ∧ (halfCoount (Confirm_tally ks g) + mhalfCount (Confirm_tally ks g)
     = Z.of_nat (size (pushEventMap g)))%Z.
Proof.
  intros Hks Hsize. unfold int_max in Hsize.
  rewrite Confirm_tally_counts. cbn [hitCount missCount halfCoount mhalfCount].
  rewrite <- (range_order_length _ _ Hks) in *.
  pose proof (length_filter_TestString (blomfil g) ks).
  pose proof (length_filter_TestString (halfblomfil g) ks).
  rewrite !int_wrap_small by (unfold int_max; lia). lia.
Qed.

(** Decode errors that leave the decoder usable: when the body holds an
    element that is a JSON value but does not fit [Model], the streaming
    reader logs it, skips it and goes on: it returns, having applied [proc]
    to every record of the body; the whole-buffer reader ends the process
    with status 1 and has applied [proc] to nothing. *)
Theorem decode_error_policy (env : Env) (cfg : Config)
    (proc : Model → Globals → Globals) (w : World) (body : Body) (e0 : string) :
  http_Get env (requests w) = Ok body →
  read_err body = None →
  token_err body = None →
  Malformed e0 ∈ elements body →
  (∃ w', readAllStreamingInternal env cfg proc w = Returned () w'
     ∧ globals w' = pass proc (records_of (elements body)) (globals w)
     ∧ logged w'
       = (logged w
          ++ (String.append "decoding err =>  " <$> errors_of (elements body))
          ++ ["entries: %d " +:+ pretty (length (records_of (elements body)))])%list)
  ∧ (∃ e w', readAllInMemoryInternal env cfg proc w = Exited 1 w'
     ∧ globals w' = globals w
     ∧ logged w'
       = (logged w ++ ["Error Unmarshalling data into memory: " +:+ e])%list).
Proof.
  intros Hget Hread Htok Hbad. split.
  - unfold readAllStreamingInternal.
    erewrite bindM_Returned by reflexivity. rewrite Hget, Htok.
    erewrite bindM_Returned by apply decode_loop_Returned.
    eexists. split; [reflexivity|]. simpl. by rewrite <- app_assoc.
  - destruct (collect_Malformed _ _ Hbad) as [e He].
    unfold readAllInMemoryInternal.
    erewrite bindM_Returned by reflexivity. rewrite Hget, Hread.
    unfold json_Unmarshal. rewrite Htok, He.
    by eexists e, _.
Qed.

(* ===================================================================== *)
(** * The properties at concrete inputs *)
(* ===================================================================== *)

#[local] Existing Instance example_hash.

Lemma reconciliation_zero_miss_witness :
  Confirm_tally ["3"; "1"] example_final
  = {| hitCount := 2; missCount := 0; halfCoount := 2; mhalfCount := 0 |}.
Proof.
  apply (@reconciliation_zero_miss example_hash example_records
           (bloom.New 100 4) (bloom.New 50 4) ["3"; "1"]).
  - vm_compute. reflexivity.
  - vm_compute. discriminate.
Defined.

Lemma idempotent_insertion_witness :
  (∀ q, bloom.TestString
          (Nat.iter 3 (λ g, bloom.AddString g "1") (bloom.New 100 4)) q
        = bloom.TestString (bloom.AddString (bloom.New 100 4) "1") q)
  ∧ bloom.GobEncode (Nat.iter 3 (λ g, bloom.AddString g "1") (bloom.New 100 4))
    = bloom.GobEncode (bloom.AddString (bloom.New 100 4) "1").
Proof. apply (@idempotent_insertion example_hash (bloom.New 100 4) "1" 3). lia. Defined.

Lemma serialization_round_trip_witness :
  ∃ f', bloom.GobDecode
          (bloom.GobEncode (bloom.AddString (bloom.New 100 4) "1"))
        = Some f'
        ∧ ∀ id, bloom.TestString f' id
                = bloom.TestString (bloom.AddString (bloom.New 100 4) "1") id.
Proof.
  apply (@serialization_round_trip example_hash).
  unfold bloom.wf. vm_compute. repeat split; discriminate.
Defined.

Lemma insertion_order_insensitive_witness :
  let l := example_records in
  let l' := [ mkModel "2" "WatchEvent" true "2015-01-01T15:00:01Z";
              mkModel "1" "PushEvent" true "2015-01-01T15:00:00Z";
              mkModel "3" "PushEvent" true "2015-01-01T15:00:03Z" ] in
  pass ProcessChunkUsingMap l' initial_globals
  = pass ProcessChunkUsingMap l initial_globals
  ∧ pass ProcessChunkUsingBloom l' initial_globals
    = pass ProcessChunkUsingBloom l initial_globals
  ∧ ∀ id,
      bloom.TestString (blomfil (pass ProcessChunkUsingBloom l' initial_globals)) id
      = bloom.TestString (blomfil (pass ProcessChunkUsingBloom l initial_globals)) id
      ∧ bloom.TestString (halfblomfil (pass ProcessChunkUsingBloom l' initial_globals)) id
        = bloom.TestString (halfblomfil (pass ProcessChunkUsingBloom l initial_globals)) id.
Proof.
  apply (@insertion_order_insensitive example_hash). apply perm_swap.
Defined.

Lemma tallies_partition_witness :
  (hitCount (Confirm_tally ["3"; "1"] example_unhealthy)
   + missCount (Confirm_tally ["3"; "1"] example_unhealthy)
   = Z.of_nat (size (pushEventMap example_unhealthy)))%Z
  ∧ (halfCoount (Confirm_tally ["3"; "1"] example_unhealthy)
     + mhalfCount (Confirm_tally ["3"; "1"] example_unhealthy)
     = Z.of_nat (size (pushEventMap example_unhealthy)))%Z.
Proof.
  apply (@tallies_partition example_hash example_unhealthy ["3"; "1"]).
  - vm_compute. reflexivity.
  - vm_compute. discriminate.
Defined.

Lemma decode_error_policy_witness :
  let env := example_env [] (elements example_body) [] in
  let w := initial_world in
  let cfg := {| TracingEnabled := true; TraceFile := TRACE_FILE |} in
  (∃ w', readAllStreamingInternal env cfg ProcessChunkUsingMap w = Returned () w'
     ∧ globals w'
       = pass ProcessChunkUsingMap (records_of (elements example_body)) (globals w)
     ∧ logged w'
       = (logged w
          ++ (String.append "decoding err =>  " <$> errors_of (elements example_body))
          ++ ["entries: %d " +:+ pretty (length (records_of (elements example_body)))])%list)
  ∧ (∃ e w', readAllInMemoryInternal env cfg ProcessChunkUsingMap w = Exited 1 w'
     ∧ globals w' = globals w
     ∧ logged w'
       = (logged w ++ ["Error Unmarshalling data into memory: " +:+ e])%list).
Proof.
  apply (decode_error_policy (example_env [] (elements example_body) [])
           {| TracingEnabled := true; TraceFile := TRACE_FILE |}
           (ProcessChunkUsingMap)
           (initial_world) example_body
           "json: cannot unmarshal number into Go struct field Model.id of type string").
  - reflexivity.
  - reflexivity.
  - reflexivity.
  - simpl. right. left.
Defined.

(** C3. Persistence errors are meant to be fatal. On a file system where
    none of the three output files can be created, [main] still returns
    normally: no file is written, the three [Save] calls fail unnoticed, and
    [Confirm] runs and logs its tally as the last line. *)
Theorem persistence_failure_is_not_fatal :
  match main
          (example_env [] (Value <$> example_records)
             ["mapBytes.gob"; "bloomBytes.gob"; "halfbloomBytes.gob"])
          initial_world
  with
  | Returned _ w =>
      files w !! "mapBytes.gob" = None
      ∧ files w !! "bloomBytes.gob" = None
      ∧ files w !! "halfbloomBytes.gob" = None
      ∧ last (logged w)
        = Some "Hits in bloom: 2, Miss in bloom: 0, Half in: 2, Half miss: 0"
  | Exited _ _ => False
  end.
Proof. vm_compute. repeat split. Qed.

(** C9. The flag is meant to decide whether tracing is set up. With the
    command line [-e=false], which [flag.Parse] reads as [e = false], [main]
    still sets tracing up: the trace file is created. *)
Theorem tracing_set_up_when_flag_is_false :
  parse_args {[ "e" := true ]} ["-e=false"] = Ok {[ "e" := false ]}
  ∧ match main (example_env ["-e=false"] (Value <$> example_records) [])
            initial_world
    with
    | Returned _ w => files w !! TRACE_FILE = Some []
    | Exited _ _ => False
    end.
Proof. split; vm_compute; reflexivity. Qed.

(* ===================================================================== *)
(** * Further properties: the passes and the exact set *)
(* ===================================================================== *)

Lemma size_fold_insert (ks : list string) (mp : gmap string bool) :
  (size mp ≤ size (fold_left (λ mp k, <[k := true]> mp) ks mp)
   ∧ size (fold_left (λ mp k, <[k := true]> mp) ks mp) ≤ size mp + length ks)%nat.
Proof.
  revert mp. induction ks as [|k ks IH]; intros mp; cbn [fold_left length]; [lia|].
  destruct (IH (<[k := true]> mp)) as [IH1 IH2].
  rewrite map_size_insert in IH1, IH2.
  destruct (mp !! k); simpl in IH1, IH2; lia.
Qed.

Lemma length_tracked (l : list Model) :
  length (tracked l) = length (filter (λ md, Type_ md = "PushEvent") l).
Proof. unfold tracked. apply length_fmap. Qed.

(** X1. The two passes touch different stores, so they can be run in either
    order: the estimator pass after the exact-set pass gives the same stores
    as the exact-set pass after the estimator pass, whatever the two record
    sequences are. *)
Theorem passes_commute `{HashFamily} (l l' : list Model) (g : Globals) :
  pass ProcessChunkUsingBloom l (pass ProcessChunkUsingMap l' g)
  = pass ProcessChunkUsingMap l' (pass ProcessChunkUsingBloom l g).
Proof.
  rewrite (pass_ProcessChunkUsingMap l' g), (pass_ProcessChunkUsingBloom l g).
  by rewrite pass_ProcessChunkUsingBloom, pass_ProcessChunkUsingMap.
Qed.

(** X2. Running the exact-set pass a second time over the same records changes
    nothing. *)
Theorem exact_set_pass_idempotent (l : list Model) (g : Globals) :
  pass ProcessChunkUsingMap l (pass ProcessChunkUsingMap l g)
  = pass ProcessChunkUsingMap l g.
Proof.
  rewrite (pass_ProcessChunkUsingMap l g), pass_ProcessChunkUsingMap.
  cbn [pushEventMap blomfil halfblomfil]. f_equal.
  apply map_eq. intros k. rewrite !lookup_fold_insert. by case_decide.
Qed.

(** X3. The exact-set pass never removes a key and never stores anything but
    [true]: after it, a key is either mapped to [true] or is exactly as it
    was before; and it leaves both estimators alone. *)
Theorem exact_set_pass_only_adds_true (l : list Model) (g : Globals) (k : string) :
  (pushEventMap (pass ProcessChunkUsingMap l g) !! k = Some true
   ∨ pushEventMap (pass ProcessChunkUsingMap l g) !! k = pushEventMap g !! k)
  ∧ blomfil (pass ProcessChunkUsingMap l g) = blomfil g
  ∧ halfblomfil (pass ProcessChunkUsingMap l g) = halfblomfil g.
Proof.
  rewrite pass_ProcessChunkUsingMap. cbn [pushEventMap blomfil halfblomfil].
  rewrite lookup_fold_insert. case_decide; auto.
Qed.

(** X4. The exact set grows by at most one key per "PushEvent" record, and never
    shrinks; so after a pass from an empty set it has no more keys than
    there were records. *)
Theorem exact_set_size_bound (l : list Model) (g : Globals) :
  (size (pushEventMap g) ≤ size (pushEventMap (pass ProcessChunkUsingMap l g))
   ∧ size (pushEventMap (pass ProcessChunkUsingMap l g))
     ≤ size (pushEventMap g) + length (filter (λ md, Type_ md = "PushEvent") l)
   ∧ length (filter (λ md, Type_ md = "PushEvent") l) ≤ length l)%nat.
Proof.
  rewrite pass_ProcessChunkUsingMap. cbn [pushEventMap].
  rewrite <- length_tracked.
  destruct (size_fold_insert (tracked l) (pushEventMap g)) as [H1 H2].
  repeat split; [done..|].
  rewrite length_tracked. apply length_filter.
Qed.

(* ===================================================================== *)
(** * Further properties: the reconciliation *)
(* ===================================================================== *)

Lemma Confirm_tally_Permutation `{HashFamily} (ks ks' : list string) (g : Globals) :
  ks ≡ₚ ks' → Confirm_tally ks g = Confirm_tally ks' g.
Proof. intros Hperm. rewrite !Confirm_tally_counts. by rewrite Hperm. Qed.

Lemma range_order_elem_iff (mp : gmap string bool) (ks : list string) (k : string) :
  range_order mp ks → k ∈ ks ↔ is_Some (mp !! k).
Proof.
  intros Hks. split; [by apply range_order_elem|].
  intros [v Hv]. unfold range_order in Hks. rewrite Hks.
  apply list_elem_of_fmap. exists (k, v). split; [done|].
  by apply elem_of_map_to_list.
Qed.

Lemma length_filter_zero {A : Type} (P : A → Prop) `{∀ x, Decision (P x)}
    (l : list A) :
  length (filter P l) = 0%nat ↔ ∀ x, x ∈ l → ¬ P x.
Proof.
  induction l as [|a l IH].
  - split; [|done]. intros _ x Hx. by apply elem_of_nil in Hx.
  - rewrite filter_cons. destruct (decide (P a)) as [Ha|Ha].
    + split; [done|]. intros Hall. exfalso. apply (Hall a); [by left | done].
    + rewrite IH. split.
      * intros Hall x Hx. apply elem_of_cons in Hx as [->|Hx]; [done | by apply Hall].
      * intros Hall x Hx. apply Hall. by right.
Qed.

(** X5. [Confirm] never ends the process and changes nothing but the log; the
    line it logs is the tally of any order in which the keys of the map can
    be visited: the order of the [range] does not show in the output. *)
Theorem Confirm_any_order `{HashFamily} (w : World) (ks : list string) :
  range_order (pushEventMap (globals w)) ks →
  Confirm w = Returned () (add_log (Confirm_line (Confirm_tally ks (globals w))) w).
Proof.
  intros Hks. unfold Confirm.
  erewrite bindM_Returned by reflexivity. unfold log_Println.
  by rewrite (Confirm_tally_Permutation _ _ _ Hks).
Qed.

(** X6. The miss counters are sound and complete as alarms: the full filter's
    miss count is 0 exactly when the filter reports every key of the exact
    set present, and likewise for the half filter. *)
Theorem miss_count_zero_iff `{HashFamily} (g : Globals) (ks : list string) :
  range_order (pushEventMap g) ks →
  (Z.of_nat (size (pushEventMap g)) ≤ int_max)%Z →
  (missCount (Confirm_tally ks g) = 0%Z
   ↔ ∀ k, is_Some (pushEventMap g !! k) → bloom.TestString (blomfil g) k = true)
  ∧ (mhalfCount (Confirm_tally ks g) = 0%Z
     ↔ ∀ k, is_Some (pushEventMap g !! k) → bloom.TestString (halfblomfil g) k = true).
Proof.
  intros Hks Hsize. unfold int_max in Hsize.
  rewrite Confirm_tally_counts. cbn [missCount mhalfCount].
  rewrite <- (range_order_length _ _ Hks) in Hsize.
  pose proof (length_filter_TestString (blomfil g) ks).
  pose proof (length_filter_TestString (halfblomfil g) ks).
  rewrite !int_wrap_small by (unfold int_max; lia).
  rewrite <- !Nat2Z.inj_0, !Nat2Z.inj_iff, !length_filter_zero.
  split; (split; intros Hall k Hk;
    [ apply (range_order_elem_iff _ _ _ Hks) in Hk; apply Hall in Hk;
      by apply not_false_iff_true in Hk
    | apply (range_order_elem_iff _ _ _ Hks) in Hk; apply Hall in Hk;
      by rewrite Hk ]).
Qed.

(* ===================================================================== *)
(** * Further properties: the readers *)
(* ===================================================================== *)

Lemma bindM_Exited {A B : Type} (c : M A) (f : A → M B) (w w' : World) (code : Z) :
  c w = Exited code w' → bindM c f w = Exited code w'.
Proof. unfold bindM, mbind, M_bind. by intros ->. Qed.


Lemma readAllStreamingInternal_Returned (env : Env) (cfg : Config)
    (proc : Model → Globals → Globals) (w : World) (body : Body) :
  http_Get env (requests w) = Ok body →
  token_err body = None →
  readAllStreamingInternal env cfg proc w
  = Returned ()
      {| globals := pass proc (records_of (elements body)) (globals w);
         flags := flags w; tracing := tracing w; requests := S (requests w);
         files := files w;
         logged :=
           (logged w
            ++ (String.append "decoding err =>  " <$> errors_of (elements body))
            ++ ["entries: %d " +:+ pretty (length (records_of (elements body)))])%list |}.
Proof.
  intros Hget Htok. unfold readAllStreamingInternal.
  erewrite bindM_Returned by reflexivity. rewrite Hget, Htok.
  erewrite bindM_Returned by apply decode_loop_Returned.
  unfold log_Println, add_log. simpl. by rewrite <- app_assoc.
Qed.

Lemma ReadAllStreaming_unfold (env : Env) (cfg : Config)
    (proc : Model → Globals → Globals) (w : World) :
  ReadAllStreaming env cfg proc w = readAllStreamingInternal env cfg proc w.
Proof.
  unfold ReadAllStreaming. erewrite bindM_Returned by reflexivity.
  by destruct (tracing w).
Qed.

(** X7. The streaming reader ends the process only before the first record:
    when it exits, the status is 1, exactly one line was logged, and the
    stores and the files are as they were. *)
Theorem streaming_exit_before_processing (env : Env) (cfg : Config)
    (proc : Model → Globals → Globals) (w w' : World) (code : Z) :
  readAllStreamingInternal env cfg proc w = Exited code w' →
  code = 1%Z ∧ globals w' = globals w ∧ files w' = files w
  ∧ ∃ line, logged w' = (logged w ++ [line])%list.
Proof.
  destruct (http_Get env (requests w)) as [body|e] eqn:Hget.
  - destruct (token_err body) as [e|] eqn:Htok.
    + unfold readAllStreamingInternal.
      erewrite bindM_Returned by reflexivity. rewrite Hget, Htok.
      intros [= <- <-]. eauto.
    + by rewrite (readAllStreamingInternal_Returned _ _ _ _ _ Hget Htok).
  - unfold readAllStreamingInternal.
    erewrite bindM_Returned by reflexivity. rewrite Hget.
    intros [= <- <-]. eauto.
Qed.

(** X8. The whole-buffer reader, likewise: it exits only before [proc] is
    applied to anything, with status 1 and one line logged. *)
Theorem in_memory_exit_before_processing (env : Env) (cfg : Config)
    (proc : Model → Globals → Globals) (w w' : World) (code : Z) :
  readAllInMemoryInternal env cfg proc w = Exited code w' →
  code = 1%Z ∧ globals w' = globals w ∧ files w' = files w
  ∧ ∃ line, logged w' = (logged w ++ [line])%list.
Proof.
  unfold readAllInMemoryInternal.
  erewrite bindM_Returned by reflexivity.
  destruct (http_Get env (requests w)) as [body|e]; [|intros [= <- <-]; eauto].
  destruct (read_err body) as [e|]; [intros [= <- <-]; eauto|].
  destruct (json_Unmarshal body) as [dataModel|e]; [|intros [= <- <-]; eauto].
  erewrite seq_Returned by apply range_proc_Returned. discriminate.
Qed.


(* ===================================================================== *)
(** * Further properties: persistence *)
(* ===================================================================== *)

(** X10. [Save] always returns, and touches nothing but the file it is given:
    the stores, the log, the tracing state, the flags, the request count and
    every other file are as before. *)
Theorem Save_touches_only_its_file (env : Env) (filename : string)
    (data : list byte) (w : World) :
  ∃ err w', Save env filename data w = Returned err w'
    ∧ globals w' = globals w ∧ logged w' = logged w ∧ tracing w' = tracing w
    ∧ flags w' = flags w ∧ requests w' = requests w
    ∧ ∀ other, other ≠ filename → files w' !! other = files w !! other.
Proof.
  unfold Save, bindM, mbind, M_bind, os_Create, gzip_Write, mret, M_ret.
  destruct (create_err env filename) as [e|]; [by eexists _, _|].
  destruct (write_err env filename) as [e|]; eexists _, _;
    (split; [reflexivity|]); cbn; repeat split; intros other Hne;
    by rewrite ?lookup_insert_ne.
Qed.

(** X11. When the file can be created and written, [Save] reports no error and
    the file holds the compressed data, whatever it held before. *)
Theorem Save_writes_compressed_data (env : Env) (filename : string)
    (data : list byte) (w : World) :
  create_err env filename = None →
  write_err env filename = None →
  ∃ w', Save env filename data w = Returned None w'
    ∧ files w' !! filename = Some (gzip_bytes env data).
Proof.
  intros Hc Hw.
  unfold Save, bindM, mbind, M_bind, os_Create, gzip_Write, mret, M_ret.
  rewrite Hc. cbn. rewrite Hw. eexists. split; [reflexivity|].
  cbn. by rewrite lookup_insert_eq.
Qed.

(** When the file cannot be created, [Save] returns that error and the
    world is untouched: a file of that name written earlier is still there. *)
Theorem Save_create_failure (env : Env) (filename : string) (data : list byte)
    (w : World) (e : string) :
  create_err env filename = Some e →
  Save env filename data w = Returned (Some e) w.
Proof.
  intros Hc. unfold Save, bindM, mbind, M_bind, os_Create, mret, M_ret.
  by rewrite Hc.
Qed.

(** X12. When the file can be created but the write fails, [Save] reports no
    error, and the file is left created and empty: what it held is lost. *)
Theorem Save_write_failure_is_silent (env : Env) (filename : string)
    (data : list byte) (w : World) (e : string) :
  create_err env filename = None →
  write_err env filename = Some e →
  ∃ w', Save env filename data w = Returned None w'
    ∧ files w' !! filename = Some [].
Proof.
  intros Hc Hw.
  unfold Save, bindM, mbind, M_bind, os_Create, gzip_Write, mret, M_ret.
  rewrite Hc. cbn. rewrite Hw. eexists. split; [reflexivity|].
  cbn. by rewrite lookup_insert_eq.
Qed.

(** X13. Two [Save]s to one name: the later one wins. When the file can be
    created and written, saving [d1] and then [d2] leaves the world exactly
    as saving [d2] alone does. *)
Theorem Save_last_write_wins (env : Env) (filename : string)
    (d1 d2 : list byte) (w : World) :
  create_err env filename = None →
  write_err env filename = None →
  (Save env filename d1;; Save env filename d2) w = Save env filename d2 w.
Proof.
  intros Hc Hw.
  unfold Save, bindM, mbind, M_bind, os_Create, gzip_Write, mret, M_ret.
  rewrite Hc. cbn. rewrite Hw. cbn. rewrite ?Hc. cbn. rewrite ?Hw.
  unfold set_files. cbn. by rewrite !insert_insert_eq.
Qed.

(* ===================================================================== *)
(** * Further properties: tracing *)
(* ===================================================================== *)

(** With tracing disabled in the configuration, [setupTracing] does nothing
    and returns a closer that does nothing: no file, no trace, no log line. *)
Theorem setupTracing_disabled (env : Env) (cfg : Config) (w : World) :
  TracingEnabled cfg = false →
  ∃ closer, setupTracing env cfg w = Returned closer w
            ∧ ∀ w1, closer w1 = Returned () w1.
Proof.
  intros Hoff. unfold setupTracing. rewrite Hoff. cbn.
  eexists. split; [reflexivity|]. done.
Qed.

(** X14. With tracing enabled, [setupTracing] returns exactly when the trace file
    can be created and the trace started; tracing is then on and the file
    exists. Otherwise the process ends with status 1 and one line logged,
    and tracing is not on. Either way the stores are untouched. *)
Theorem setupTracing_enabled (env : Env) (cfg : Config) (w : World) :
  TracingEnabled cfg = true →
  tracing w = false →
  match setupTracing env cfg w with
  | Returned _ w1 =>
      create_err env (TraceFile cfg) = None ∧ trace_Start_err env = None
      ∧ tracing w1 = true ∧ files w1 !! TraceFile cfg = Some []
      ∧ globals w1 = globals w ∧ logged w1 = logged w
  | Exited code w1 =>
      code = 1%Z ∧ tracing w1 = false ∧ globals w1 = globals w
      ∧ (create_err env (TraceFile cfg) ≠ None ∨ trace_Start_err env ≠ None)
      ∧ ∃ line, logged w1 = (logged w ++ [line])%list
  end.
Proof.
  intros Hon Hoff. unfold setupTracing. rewrite Hon. cbn [negb].
  unfold bindM, mbind, M_bind, os_Create, trace_Start, log_Fatal, mret, M_ret.
  destruct (create_err env (TraceFile cfg)) as [e|]; cbn.
  { repeat split; eauto. }
  destruct (trace_Start_err env) as [e|]; cbn.
  { repeat split; eauto. }
  repeat split. by rewrite lookup_insert_eq.
Qed.

(** X15. The closer [setupTracing] returns stops the trace: whenever it is run,
    tracing is off afterwards; and it ends the process, with status 1,
    exactly when closing the trace file fails. *)
Theorem setupTracing_closer_stops_trace (env : Env) (cfg : Config) (w w1 : World)
    (closer : M unit) :
  TracingEnabled cfg = true →
  setupTracing env cfg w = Returned closer w1 →
  ∀ w2,
    match closer w2 with
    | Returned _ w3 =>
        close_err env (TraceFile cfg) = None ∧ w3 = set_tracing false w2
    | Exited code w3 =>
        code = 1%Z ∧ close_err env (TraceFile cfg) ≠ None ∧ tracing w3 = false
    end.
Proof.
  intros Hon. unfold setupTracing. rewrite Hon. cbn [negb].
  unfold bindM, mbind, M_bind, os_Create, trace_Start, log_Fatal, mret, M_ret.
  destruct (create_err env (TraceFile cfg)) as [e|]; [done|].
  destruct (trace_Start_err env) as [e|]; [done|].
  intros [= <- <-] w2. unfold trace_Stop.
  destruct (close_err env (TraceFile cfg)) as [e|]; cbn; by repeat split.
Qed.

(* ===================================================================== *)
(** * Further properties: the memory figures *)
(* ===================================================================== *)

(** X16. The figure [memUsage] prints for a counter that grew is the growth in
    whole millions of bytes; for a counter that shrank (as [Alloc] and
    [HeapAlloc] can) the subtraction wraps around, and for a shrinkage of up
    to [2^63] bytes the figure printed is at least 9223372036854. *)
Theorem memDelta_wraps (old new : N) :
  (old < uint_bound)%N →
  (new < uint_bound)%N →
  ((old ≤ new → memDelta old new = (new - old) / 1000000)
   ∧ (new < old → memDelta old new = (uint_bound - (old - new)) / 1000000)
   ∧ (new < old → old - new ≤ 2 ^ 63 → 9223372036854 ≤ memDelta old new))%N.
Proof.
  unfold memDelta, uint64_sub, uint_bound. intros Hold Hnew.
  assert (E1 : (old ≤ new →
    (new + 2 ^ 64 - old) mod 2 ^ 64 = new - old)%N).
  { intros Hle.
    replace (new + 2 ^ 64 - old)%N with ((new - old) + 1 * 2 ^ 64)%N by lia.
    rewrite N.Div0.mod_add. apply N.mod_small. lia. }
  assert (E2 : (new < old →
    (new + 2 ^ 64 - old) mod 2 ^ 64 = 2 ^ 64 - (old - new))%N).
  { intros Hlt.
    replace (new + 2 ^ 64 - old)%N with (2 ^ 64 - (old - new))%N by lia.
    apply N.mod_small. lia. }
  repeat split.
  - intros Hle. by rewrite E1.
  - intros Hlt. by rewrite E2.
  - intros Hlt Hsmall. rewrite E2 by done.
    apply N.div_le_lower_bound; lia.
Qed.

(* ===================================================================== *)
(** * Further properties: the whole run *)
(* ===================================================================== *)

Lemma Save_frame (env : Env) (filename : string) (data : list byte) (w : World) :
  ∃ err fs, Save env filename data w = Returned err (set_files fs w).
Proof.
  unfold Save, bindM, mbind, M_bind, os_Create, gzip_Write, mret, M_ret.
  destruct (create_err env filename) as [e|].
  { exists (Some e), (files w). by destruct w. }
  destruct (write_err env filename) as [e|]; by eexists _, _.
Qed.

Lemma main_prefix `{HashFamily} (env : Env) (w : World) :
  main env w
  = (let cfg := {| TracingEnabled := true; TraceFile := TRACE_FILE |} in
     let* closer := setupTracing env cfg in
     ReadAllStreaming env cfg ProcessChunkUsingMap;;
     ReadAllStreaming env cfg ProcessChunkUsingBloom;;
     let* g := get_globals in
     match gob_Encode env (pushEventMap g) with
     | Err e => log_Fatal ("Error on json Marshal: " +:+ e)
     | Ok buf =>
         Save env "mapBytes.gob" buf;;
         Save env "bloomBytes.gob" (bloom.GobEncode (blomfil g));;
         Save env "halfbloomBytes.gob" (bloom.GobEncode (halfblomfil g));;
         Confirm;;
         closer
     end) (set_flags (<["e" := true]> (flags w)) w).
Proof.
  unfold main.
  erewrite bindM_Returned by reflexivity.
  erewrite bindM_Returned by reflexivity.
  cbn [flags set_flags]. by rewrite lookup_insert_eq.
Qed.

Lemma setupTracing_Returned (env : Env) (cfg : Config) (w : World) :
  TracingEnabled cfg = true →
  create_err env (TraceFile cfg) = None →
  trace_Start_err env = None →
  setupTracing env cfg w
  = Returned
      (trace_Stop;;
       match close_err env (TraceFile cfg) with
       | Some e => log_Fatal ("failed to close trace file: " +:+ e)
       | None => mret ()
       end)
      (set_tracing true (set_files (<[TraceFile cfg := []]> (files w)) w)).
Proof.
  intros Hon Hc Hs. unfold setupTracing. rewrite Hon. cbn [negb].
  unfold bindM, mbind, M_bind, os_Create, trace_Start, mret, M_ret.
  by rewrite Hc, Hs.
Qed.



Lemma readAllStreamingInternal_fetch_Exited (env : Env) (cfg : Config)
    (proc : Model → Globals → Globals) (w : World) (e : string) :
  http_Get env (requests w) = Err e →
  readAllStreamingInternal env cfg proc w
  = Exited 1 (add_log ("ERROR FETCHING TEST DATA: " +:+ e)
                (set_requests (S (requests w)) w)).
Proof.
  intros Hget. unfold readAllStreamingInternal.
  erewrite bindM_Returned by reflexivity. by rewrite Hget.
Qed.

Lemma readAllStreamingInternal_token_Exited (env : Env) (cfg : Config)
    (proc : Model → Globals → Globals) (w : World) (body : Body) (e : string) :
  http_Get env (requests w) = Ok body →
  token_err body = Some e →
  readAllStreamingInternal env cfg proc w
  = Exited 1 (add_log ("Token decoding error: <nil> " +:+ e)
                (set_requests (S (requests w)) w)).
Proof.
  intros Hget Htok. unfold readAllStreamingInternal.
  erewrite bindM_Returned by reflexivity. by rewrite Hget, Htok.
Qed.

(** X18. When the server cannot be reached, [main] ends with status 1 after
    logging the error; the stores are untouched, only the trace file has
    been created, and the trace is still running: the deferred closer is
    not run. *)
Theorem main_fetch_failure `{HashFamily} (env : Env) (w : World) (e : string) :
  create_err env TRACE_FILE = None →
  trace_Start_err env = None →
  http_Get env (requests w) = Err e →
  ∃ w', main env w = Exited 1 w'
    ∧ globals w' = globals w
    ∧ logged w' = (logged w ++ ["ERROR FETCHING TEST DATA: " +:+ e])%list
    ∧ files w' = <[TRACE_FILE := []]> (files w)
    ∧ tracing w' = true.
Proof.
  intros Hc Hs Hget.
  rewrite main_prefix. cbv zeta.
  erewrite bindM_Returned by (by apply setupTracing_Returned).
  erewrite seq_Exited
    by (rewrite ReadAllStreaming_unfold;
        by apply readAllStreamingInternal_fetch_Exited).
  eexists. split; [reflexivity|]. by cbn.
Qed.

(** Closes a case in which the process ended before any output was saved. *)
Ltac only_trace_file :=
  intros [= <- <-]; split; [done|]; left; intros name Hne; cbn;
  by rewrite ?lookup_insert_ne by done.

(** X19. Nothing is persisted by a run that fails: when [main] ends the
    process, the status is 1, and either no file but the trace file has
    been created or written, or the exit is the failed closing of the trace
    file at the very end: the last line logged is that failure, and the
    trace has been stopped. *)
Theorem main_exit_persists_nothing `{HashFamily} (env : Env) (w w' : World)
    (code : Z) :
  main env w = Exited code w' →
  code = 1%Z
  ∧ ((∀ name, name ≠ TRACE_FILE → files w' !! name = files w !! name)
     ∨ ∃ e, close_err env TRACE_FILE = Some e
            ∧ last (logged w') = Some ("failed to close trace file: " +:+ e)
            ∧ tracing w' = false).
Proof.
  rewrite main_prefix. cbv zeta.
  destruct (create_err env TRACE_FILE) as [e|] eqn:Hc.
  { erewrite bindM_Exited
      by (unfold setupTracing; cbn [negb TracingEnabled TraceFile];
          unfold bindM, mbind, M_bind, os_Create, log_Fatal; by rewrite Hc).
    only_trace_file. }
  destruct (trace_Start_err env) as [e|] eqn:Hs.
  { erewrite bindM_Exited
      by (unfold setupTracing; cbn [negb TracingEnabled TraceFile];
          unfold bindM, mbind, M_bind, os_Create, trace_Start, log_Fatal;
          by rewrite Hc, Hs).
    only_trace_file. }
  erewrite bindM_Returned by (by apply setupTracing_Returned).
  destruct (http_Get env (requests w)) as [body1|e] eqn:Hget1.
  2:{ erewrite seq_Exited
        by (rewrite ReadAllStreaming_unfold;
            by apply readAllStreamingInternal_fetch_Exited).
      only_trace_file. }
  destruct (token_err body1) as [e|] eqn:Htok1.
  { erewrite seq_Exited
      by (rewrite ReadAllStreaming_unfold;
          by apply (readAllStreamingInternal_token_Exited _ _ _ _ body1)).
    only_trace_file. }
  erewrite seq_Returned
    by (rewrite ReadAllStreaming_unfold;
        by apply (readAllStreamingInternal_Returned _ _ _ _ body1)).
  destruct (http_Get env (S (requests w))) as [body2|e] eqn:Hget2.
  2:{ erewrite seq_Exited
        by (rewrite ReadAllStreaming_unfold;
            by apply readAllStreamingInternal_fetch_Exited).
      only_trace_file. }
  destruct (token_err body2) as [e|] eqn:Htok2.
  { erewrite seq_Exited
      by (rewrite ReadAllStreaming_unfold;
          by apply (readAllStreamingInternal_token_Exited _ _ _ _ body2)).
    only_trace_file. }
  erewrite seq_Returned
    by (rewrite ReadAllStreaming_unfold;
        by apply (readAllStreamingInternal_Returned _ _ _ _ body2)).
  erewrite bindM_Returned by reflexivity.
  cbn [globals flags tracing requests files logged set_tracing set_files
       set_flags TraceFile].
  destruct (gob_Encode env _) as [buf|e].
  2:{ only_trace_file. }
  do 3 (match goal with
        | |- context [ (Save ?e ?n ?d ;; _) ?W ] =>
            let HS := fresh "HS" in
            destruct (Save_frame e n d W) as (? & ? & HS);
            erewrite seq_Returned by exact HS; clear HS
        end).
  erewrite seq_Returned
    by (unfold Confirm; erewrite bindM_Returned by reflexivity; reflexivity).
  erewrite seq_Returned by reflexivity.
  destruct (close_err env TRACE_FILE) as [e|]; [|done].
  intros [= <- <-]. split; [done|]. right. exists e.
  split; [done|]. split; [|done]. cbn. apply last_snoc.
Qed.

(* ===================================================================== *)
(** * The further properties at concrete inputs *)
(* ===================================================================== *)

Lemma Confirm_any_order_witness :
  let w := set_globals example_unhealthy initial_world in
  Confirm w
  = Returned () (add_log (Confirm_line (Confirm_tally ["1"; "3"] (globals w))) w).
Proof.
  apply (Confirm_any_order (set_globals example_unhealthy initial_world) ["1"; "3"]).
  vm_compute. apply perm_swap.
Defined.

Lemma miss_count_zero_iff_witness :
  (missCount (Confirm_tally ["3"; "1"] example_final) = 0%Z
   ↔ ∀ k, is_Some (pushEventMap example_final !! k)
          → bloom.TestString (blomfil example_final) k = true)
  ∧ (mhalfCount (Confirm_tally ["3"; "1"] example_final) = 0%Z
     ↔ ∀ k, is_Some (pushEventMap example_final !! k)
            → bloom.TestString (halfblomfil example_final) k = true).
Proof.
  apply (miss_count_zero_iff example_final ["3"; "1"]).
  - vm_compute. reflexivity.
  - vm_compute. discriminate.
Defined.

Lemma streaming_exit_before_processing_witness :
  let cfg := {| TracingEnabled := true; TraceFile := TRACE_FILE |} in
  let w' := final_world (readAllStreamingInternal example_env_offline cfg
                           ProcessChunkUsingMap initial_world) in
  1%Z = 1%Z ∧ globals w' = globals initial_world ∧ files w' = files initial_world
  ∧ ∃ line, logged w' = (logged initial_world ++ [line])%list.
Proof.
  apply (streaming_exit_before_processing example_env_offline
           {| TracingEnabled := true; TraceFile := TRACE_FILE |}
           ProcessChunkUsingMap initial_world).
  reflexivity.
Defined.

Lemma in_memory_exit_before_processing_witness :
  let cfg := {| TracingEnabled := true; TraceFile := TRACE_FILE |} in
  let env := example_env [] (elements example_body) [] in
  let w' := final_world (readAllInMemoryInternal env cfg ProcessChunkUsingMap
                           initial_world) in
  1%Z = 1%Z ∧ globals w' = globals initial_world ∧ files w' = files initial_world
  ∧ ∃ line, logged w' = (logged initial_world ++ [line])%list.
Proof.
  apply (in_memory_exit_before_processing
           (example_env [] (elements example_body) [])
           {| TracingEnabled := true; TraceFile := TRACE_FILE |}
           ProcessChunkUsingMap initial_world).
  reflexivity.
Defined.


Lemma Save_writes_compressed_data_witness :
  let env := example_env [] [] [] in
  ∃ w', Save env "bloomBytes.gob" [Byte.x01; Byte.x02] initial_world = Returned None w'
    ∧ files w' !! "bloomBytes.gob" = Some (gzip_bytes env [Byte.x01; Byte.x02]).
Proof.
  apply (Save_writes_compressed_data (example_env [] [] []) "bloomBytes.gob"
           [Byte.x01; Byte.x02] initial_world); reflexivity.
Defined.

Lemma Save_create_failure_witness :
  Save (example_env [] [] ["mapBytes.gob"]) "mapBytes.gob" [Byte.x01] initial_world
  = Returned (Some "permission denied") initial_world.
Proof.
  apply (Save_create_failure (example_env [] [] ["mapBytes.gob"]) "mapBytes.gob"
           [Byte.x01] initial_world "permission denied").
  reflexivity.
Defined.

Lemma Save_write_failure_is_silent_witness :
  ∃ w', Save (example_env_full_disk "mapBytes.gob") "mapBytes.gob" [Byte.x01]
          initial_world = Returned None w'
    ∧ files w' !! "mapBytes.gob" = Some [].
Proof.
  apply (Save_write_failure_is_silent (example_env_full_disk "mapBytes.gob")
           "mapBytes.gob" [Byte.x01] initial_world "no space left on device");
    reflexivity.
Defined.

Lemma Save_last_write_wins_witness :
  let env := example_env [] [] [] in
  (Save env "mapBytes.gob" [Byte.x01];; Save env "mapBytes.gob" [Byte.x02])
    initial_world
  = Save env "mapBytes.gob" [Byte.x02] initial_world.
Proof.
  apply (Save_last_write_wins (example_env [] [] []) "mapBytes.gob"
           [Byte.x01] [Byte.x02] initial_world); reflexivity.
Defined.

Lemma setupTracing_disabled_witness :
  ∃ closer,
    setupTracing (example_env [] [] [])
      {| TracingEnabled := false; TraceFile := TRACE_FILE |} initial_world
    = Returned closer initial_world
    ∧ ∀ w1, closer w1 = Returned () w1.
Proof.
  apply (setupTracing_disabled (example_env [] [] [])
           {| TracingEnabled := false; TraceFile := TRACE_FILE |} initial_world).
  reflexivity.
Defined.

Lemma setupTracing_enabled_witness :
  let env := example_env [] [] [TRACE_FILE] in
  let cfg := {| TracingEnabled := true; TraceFile := TRACE_FILE |} in
  match setupTracing env cfg initial_world with
  | Returned _ w1 =>
      create_err env (TraceFile cfg) = None ∧ trace_Start_err env = None
      ∧ tracing w1 = true ∧ files w1 !! TraceFile cfg = Some []
      ∧ globals w1 = globals initial_world ∧ logged w1 = logged initial_world
  | Exited code w1 =>
      code = 1%Z ∧ tracing w1 = false ∧ globals w1 = globals initial_world
      ∧ (create_err env (TraceFile cfg) ≠ None ∨ trace_Start_err env ≠ None)
      ∧ ∃ line, logged w1 = (logged initial_world ++ [line])%list
  end.
Proof.
  apply (setupTracing_enabled (example_env [] [] [TRACE_FILE])
           {| TracingEnabled := true; TraceFile := TRACE_FILE |} initial_world);
    reflexivity.
Defined.

Lemma setupTracing_closer_stops_trace_witness :
  let env := example_env [] [] [] in
  let cfg := {| TracingEnabled := true; TraceFile := TRACE_FILE |} in
  match setupTracing env cfg initial_world with
  | Returned closer w1 =>
      match closer w1 with
      | Returned _ w3 =>
          close_err env (TraceFile cfg) = None ∧ w3 = set_tracing false w1
      | Exited code w3 =>
          code = 1%Z ∧ close_err env (TraceFile cfg) ≠ None ∧ tracing w3 = false
      end
  | Exited _ _ => False
  end.
Proof.
  exact (setupTracing_closer_stops_trace (example_env [] [] [])
           {| TracingEnabled := true; TraceFile := TRACE_FILE |}
           initial_world _ _ eq_refl eq_refl _).
Defined.

Lemma memDelta_wraps_witness :
  ((5000000 ≤ 3000000 → memDelta 5000000 3000000 = (3000000 - 5000000) / 1000000)
   ∧ (3000000 < 5000000
      → memDelta 5000000 3000000 = (uint_bound - (5000000 - 3000000)) / 1000000)
   ∧ (3000000 < 5000000 → 5000000 - 3000000 ≤ 2 ^ 63
      → 9223372036854 ≤ memDelta 5000000 3000000))%N.
Proof. apply (memDelta_wraps 5000000 3000000); reflexivity. Defined.

Lemma main_fetch_failure_witness :
  ∃ w', main example_env_offline initial_world = Exited 1 w'
    ∧ globals w' = globals initial_world
    ∧ logged w'
      = (logged initial_world
         ++ ["ERROR FETCHING TEST DATA: " +:+ "dial tcp: i/o timeout"])%list
    ∧ files w' = <[TRACE_FILE := []]> (files initial_world)
    ∧ tracing w' = true.
Proof.
  apply (main_fetch_failure example_env_offline initial_world
           "dial tcp: i/o timeout"); reflexivity.
Defined.

Lemma main_exit_persists_nothing_witness :
  let w' := final_world (main example_env_offline_unclosable initial_world) in
  files w' !! "mapBytes.gob" = None
  ∧ files w' !! "bloomBytes.gob" = None
  ∧ files w' !! "halfbloomBytes.gob" = None.
Proof.
  destruct (main_exit_persists_nothing example_env_offline_unclosable
              initial_world
              (final_world (main example_env_offline_unclosable initial_world))
              1 eq_refl) as [_ [Hfiles|(e & _ & Hlast & _)]].
  - repeat split; (rewrite Hfiles; [reflexivity | discriminate]).
  - vm_compute in Hlast. discriminate Hlast.
Defined.


(* ===================================================================== *)
(** * The streaming loop and syntax errors *)
(* ===================================================================== *)

Lemma decode_loop_steps_stuck (proc : Model → Globals → Globals) (dec : Decoder)
    (e : string) (fuel : nat) (dataModel : list Model) (w : World) :
  dec_err dec = Some e →
  pending dec ≠ [] →
  decode_loop_steps fuel proc dec dataModel w
  = Returned None
      {| globals := globals w; flags := flags w; tracing := tracing w;
         requests := requests w; files := files w;
         logged := (logged w ++ replicate fuel ("decoding err =>  " +:+ e))%list |}.
Proof.
  intros He Hp. revert w. induction fuel as [|fuel IH]; intros w.
  - unfold decode_loop_steps, dec_More. destruct (pending dec); [done|].
    cbn. rewrite app_nil_r. by destruct w.
  - cbn [decode_loop_steps]. unfold dec_More, dec_Decode. rewrite He.
    destruct (pending dec) as [|i l] eqn:Hpd; [done|].
    erewrite seq_Returned by reflexivity.
    rewrite IH. cbn. by rewrite <- app_assoc.
Qed.

(** On a stream without syntax error the bounded loop, given one iteration
    per element, ends and does what [decode_loop] does. *)
Lemma decode_loop_steps_clean (proc : Model → Globals → Globals)
    (ds : list decoded) (fuel : nat) (dataModel : list Model) (w : World) :
  (length ds ≤ fuel)%nat →
  decode_loop_steps fuel proc {| pending := Element <$> ds; dec_err := None |}
    dataModel w
  = match decode_loop proc ds dataModel w with
    | Returned l w' => Returned (Some l) w'
    | Exited code w' => Exited code w'
    end.
Proof.
  revert fuel dataModel w. induction ds as [|[md|e] ds IH]; intros fuel dataModel w Hf.
  - by destruct fuel.
  - destruct fuel as [|fuel]; [cbn in Hf; lia|].
    cbn [decode_loop_steps decode_loop fmap list_fmap dec_More dec_Decode
         pending dec_err].
    erewrite !seq_Returned by reflexivity. apply IH. cbn in Hf. lia.
  - destruct fuel as [|fuel]; [cbn in Hf; lia|].
    cbn [decode_loop_steps decode_loop fmap list_fmap dec_More dec_Decode
         pending dec_err].
    erewrite !seq_Returned by reflexivity. apply IH. cbn in Hf. lia.
Qed.

(** C5. Decode errors in streaming mode are meant to be logged and skipped,
    the pass going on with the next record. When an element of the array is
    not JSON, the loop of [readAllStreamingInternal] does not go on: however
    many iterations it is given, it is still running; it has applied [proc]
    only to records before the bad element, never to one after it, and
    every iteration past that point has logged the same error again. *)
Theorem syntax_error_stalls_streaming_pass (proc : Model → Globals → Globals)
    (ds : list decoded) (e : string) (rest : list item) (fuel : nat)
    (dataModel : list Model) (w : World) :
  decode_loop_steps fuel proc
    {| pending := (Element <$> ds) ++ SyntaxError e :: rest; dec_err := None |}
    dataModel w
  = Returned None
      {| globals := pass proc (records_of (take fuel ds)) (globals w);
         flags := flags w; tracing := tracing w; requests := requests w;
         files := files w;
         logged :=
           (logged w
            ++ (String.append "decoding err =>  " <$> errors_of (take fuel ds))
            ++ replicate (fuel - length ds) ("decoding err =>  " +:+ e))%list |}.
Proof.
  revert fuel dataModel w. induction ds as [|[md|e0] ds IH]; intros fuel dataModel w.
  - destruct fuel as [|fuel].
    + cbn. rewrite app_nil_r. by destruct w.
    + cbn [decode_loop_steps fmap list_fmap app dec_More dec_Decode pending dec_err].
      erewrite seq_Returned by reflexivity.
      rewrite (decode_loop_steps_stuck _ _ e) by done.
      cbn. by rewrite <- app_assoc.
  - destruct fuel as [|fuel].
    + cbn. rewrite app_nil_r. by destruct w.
    + cbn [decode_loop_steps fmap list_fmap app dec_More dec_Decode pending dec_err].
      erewrite seq_Returned by reflexivity.
      rewrite IH. by cbn.
  - destruct fuel as [|fuel].
    + cbn. rewrite app_nil_r. by destruct w.
    + cbn [decode_loop_steps fmap list_fmap app dec_More dec_Decode pending dec_err].
      erewrite seq_Returned by reflexivity.
      rewrite IH. cbn. by rewrite <- app_assoc.
Qed.

(** The bounded loop on [example_broken_stream]: after a thousand
    iterations it is still running, only the record "1" has been processed,
    and all but the first iteration logged the syntax error. *)
Lemma example_broken_stream_stalls :
  match decode_loop_steps 1000 ProcessChunkUsingMap example_broken_stream []
          initial_world
  with
  | Returned None w =>
      map_to_list (pushEventMap (globals w)) = [("1", true)]
      ∧ length (logged w) = 999%nat
  | _ => False
  end.
Proof. vm_compute. done. Qed.
